(** * macmasq: randomising the hardware address of a network interface

    A shallow embedding of [macmasq.c].  The program talks to the kernel
    and to libc, so its functions are programs of a small free monad over
    the calls the source makes; an execution is the run of such a program
    against an operating system, which answers every call and may do so in
    any way it likes.  Properties of the order and the arguments of the
    calls are proved for every operating system; properties of the state
    of an interface are proved for a model of the netdevice ioctls. *)

From stdpp Require Import gmap strings list.

Local Open Scope Z_scope.

(** ** C integer types *)

(** Conversion to [unsigned char], [unsigned short], [short] and
    [unsigned int]: reduction modulo the width, two's complement for the
    signed type. *)
Definition uchar (z : Z) : Z := z mod 256.
Definition ushort (z : Z) : Z := z mod 65536.
Definition sshort (z : Z) : Z := (z + 32768) mod 65536 - 32768.
Definition uint (z : Z) : Z := z mod 4294967296.

(** ** Constants of the system headers (Linux) *)

Definition AF_INET : Z := 2.
Definition SOCK_DGRAM : Z := 2.
Definition IPPROTO_IP : Z := 0.
Definition SIOCGIFFLAGS : Z := 0x8913.
Definition SIOCSIFFLAGS : Z := 0x8914.
Definition SIOCSIFHWADDR : Z := 0x8924.
Definition IFF_UP : Z := 0x1.
Definition IFNAMSIZ : nat := 16.
Definition ARPHRD_ETHER : Z := 1.
Definition EXIT_SUCCESS : Z := 0.
Definition EXIT_FAILURE : Z := 1.

(** ** Data *)

(** [struct store_mac]: an array of six [unsigned char]. *)
Record MacAddress := { bytes : list Z }.

(** [struct ifreq] as far as the program touches it.  [ifr_name] is the
    array [char ifr_name[IFNAMSIZ]].  The members [ifr_flags] (a [short])
    and [ifr_hwaddr] (a [struct sockaddr]) live in one union: the sixteen
    bits at its start are both [ifr_flags] and [ifr_hwaddr.sa_family], and
    [ifr_hwaddr.sa_data] are the fourteen bytes after them. *)
Record ifreq := {
  ifr_name : list Z;
  ifr_ifru_head : Z;
  ifr_hwaddr_sa_data : list Z
}.

Definition ifr_flags (r : ifreq) : Z := sshort (ifr_ifru_head r).
Definition ifr_hwaddr_sa_family (r : ifreq) : Z := ushort (ifr_ifru_head r).

Definition set_ifr_name (n : list Z) (r : ifreq) : ifreq :=
  {| ifr_name := n; ifr_ifru_head := ifr_ifru_head r;
     ifr_hwaddr_sa_data := ifr_hwaddr_sa_data r |}.
Definition set_ifr_flags (v : Z) (r : ifreq) : ifreq :=
  {| ifr_name := ifr_name r; ifr_ifru_head := ushort v;
     ifr_hwaddr_sa_data := ifr_hwaddr_sa_data r |}.
Definition set_ifr_hwaddr_sa_family (v : Z) (r : ifreq) : ifreq :=
  {| ifr_name := ifr_name r; ifr_ifru_head := ushort v;
     ifr_hwaddr_sa_data := ifr_hwaddr_sa_data r |}.
Definition set_ifr_hwaddr_sa_data (d : list Z) (r : ifreq) : ifreq :=
  {| ifr_name := ifr_name r; ifr_ifru_head := ifr_ifru_head r;
     ifr_hwaddr_sa_data := d |}.

(** ** Arrays and the libc memory functions *)

(** [a[i] = v] on an array of known size; an index outside the array is
    undefined behaviour, here [None]. *)
Definition store (a : list Z) (i : nat) (v : Z) : option (list Z) :=
  if (i <? length a)%nat then Some (<[i:=v]> a) else None.

(** [a[i]]. *)
Definition load (a : list Z) (i : nat) : option Z := a !! i.

(** The bytes of a C string: the characters, without the terminating
    null byte. *)
Fixpoint c_str (s : string) : list Z :=
  match s with
  | EmptyString => []
  | String c s' => Z.of_N (Ascii.N_of_ascii c) :: c_str s'
  end.

(** Second loop of [strncpy]: [for ( ; i < n; i++) dest[i] = '\0';]
    with [n - i] iterations to go. *)
Fixpoint strncpy_pad (dest : list Z) (i todo : nat) {struct todo}
  : option (list Z) :=
  match todo with
  | O => Some dest
  | S todo' => dest' ← store dest i 0; strncpy_pad dest' (S i) todo'
  end.

(** First loop of [strncpy]:
    [for (i = 0; i < n && src[i] != '\0'; i++) dest[i] = src[i];]
    where [src] holds the bytes from [src[i]] on and ends with the
    terminating null byte of the string. *)
Fixpoint strncpy_copy (dest src : list Z) (i todo : nat) {struct todo}
  : option (list Z) :=
  match todo with
  | O => Some dest
  | S todo' =>
      match src with
      | c :: src' =>
          if c =? 0 then strncpy_pad dest i todo
          else dest' ← store dest i c; strncpy_copy dest' src' (S i) todo'
      | [] => strncpy_pad dest i todo
      end
  end.

(** [strncpy(dest, src, n)] *)
Definition strncpy (dest src : list Z) (n : nat) : option (list Z) :=
  strncpy_copy dest src 0 n.

(** [memcpy(dest, src, n)], byte [i] of [n - i] still to copy. *)
Fixpoint memcpy_from (dest src : list Z) (i todo : nat) {struct todo}
  : option (list Z) :=
  match todo with
  | O => Some dest
  | S todo' =>
      v ← load src i; dest' ← store dest i v; memcpy_from dest' src (S i) todo'
  end.

Definition memcpy (dest src : list Z) (n : nat) : option (list Z) :=
  memcpy_from dest src 0 n.

(** [dest] with the bytes of [block] written from index [i] on. *)
Definition blit (dest : list Z) (i : nat) (block : list Z) : list Z :=
  take i dest ++ block ++ drop (i + length block) dest.

(** ** Calls to the operating system and to libc *)

Inductive stream := stdout | stderr.

Inductive call :=
| sys_socket (domain type protocol : Z)
| sys_ioctl (fd : Z) (request : Z) (argp : ifreq)
| sys_close (fd : Z)
| sys_getpid
| lib_srand (seed : Z)
| lib_rand
| lib_perror (s : string)
| lib_fprintf (f : stream) (text : string).

(** What a call gives back: the return value and, for [ioctl], the
    request structure as the kernel leaves it. *)
Definition result (c : call) : Type :=
  match c with
  | sys_socket _ _ _ => Z
  | sys_ioctl _ _ _ => (Z * ifreq)%type
  | sys_close _ => Z
  | sys_getpid => Z
  | lib_srand _ => unit
  | lib_rand => Z
  | lib_perror _ => unit
  | lib_fprintf _ _ => unit
  end.

(** Programs: return a value, make a call and go on with its result, or
    run into undefined behaviour. *)
Inductive prog (A : Type) : Type :=
| Ret (a : A)
| Call (c : call) (k : result c → prog A)
| Undefined.
Arguments Ret {A} a.
Arguments Call {A} c k.
Arguments Undefined {A}.

Fixpoint bind {A B} (p : prog A) (f : A → prog B) : prog B :=
  match p with
  | Ret a => f a
  | Call c k => Call c (λ r, bind (k r) f)
  | Undefined => Undefined
  end.

Declare Scope prog_scope.
Delimit Scope prog_scope with prog.
Bind Scope prog_scope with prog.
Notation "x <- p ;; q" := (bind p (λ x, q))
  (at level 20, p at level 99, q at level 200, only parsing) : prog_scope.
Notation "' pat <- p ;; q" := (bind p (λ x, match x with pat => q end))
  (at level 20, pat pattern, p at level 99, q at level 200, only parsing)
  : prog_scope.
Notation "p ;; q" := (bind p (λ _, q))
  (at level 100, q at level 200, only parsing) : prog_scope.

Definition perform (c : call) : prog (result c) := Call c Ret.

(** A partial memory operation inside a program. *)
Definition defined {A} (o : option A) : prog A :=
  match o with
  | Some a => Ret a
  | None => Undefined
  end.

Definition socket (domain type protocol : Z) : prog Z :=
  perform (sys_socket domain type protocol).
Definition ioctl (fd request : Z) (argp : ifreq) : prog (Z * ifreq) :=
  perform (sys_ioctl fd request argp).
Definition close (fd : Z) : prog Z := perform (sys_close fd).
Definition getpid : prog Z := perform sys_getpid.
Definition srand (seed : Z) : prog unit := perform (lib_srand (uint seed)).
Definition rand : prog Z := perform lib_rand.
Definition perror (s : string) : prog unit := perform (lib_perror s).
(** [fprintf] and [printf], with the text as formatted. *)
Definition fprintf (f : stream) (text : string) : prog unit :=
  perform (lib_fprintf f text).
Definition printf (text : string) : prog unit := fprintf stdout text.

(** ** Output formatting *)

Definition newline : string := String (Ascii.ascii_of_nat 10) EmptyString.

Definition hex_digit (d : Z) : Ascii.ascii :=
  Ascii.ascii_of_N (Z.to_N (if d <? 10 then 48 + d else 55 + d)).

(** [%02X] applied to a value of type [unsigned char]. *)
Definition fmt_02X (b : Z) : string :=
  String (hex_digit (b / 16)) (String (hex_digit (b mod 16)) EmptyString).

(** [%02X:%02X:...:%02X] over the bytes of an array. *)
Fixpoint fmt_mac (l : list Z) : string :=
  match l with
  | [] => EmptyString
  | [b] => fmt_02X b
  | b :: l' => fmt_02X b +:+ ":" +:+ fmt_mac l'
  end.

(** The three texts of [main].  [argv[argc]] is a null pointer, which
    glibc prints as [(null)]; the report prints [bytes[0]] to
    [bytes[5]]. *)
Definition usage (argv : list string) : string :=
  "Usage: " +:+ default "(null)"%string (argv !! 0%nat)
    +:+ " INTERFACE" +:+ newline.
Definition report_new_mac (new_mac : MacAddress) : string :=
  "New MAC: " +:+ fmt_mac (take 6 (bytes new_mac)) +:+ newline.
Definition report_failure : string :=
  "Failed to change MAC address." +:+ newline.

(** ** The program *)

Section Program.

(** Automatic variables that are declared without an initialiser start
    with indeterminate contents. *)
Variable mac_addr_init : MacAddress.
Variable interface_request_init : ifreq.

Local Open Scope prog_scope.

(** [for (int i = 0; i < 6; i++) mac_addr.bytes[i] = rand() % 256;]
    from [i] on, with [6 - i] iterations to go. *)
Fixpoint generate_mac_address_loop (b : list Z) (i todo : nat)
  : prog (list Z) :=
  match todo with
  | O => Ret b
  | S todo' =>
      r <- rand ;;
      b <- defined (store b i (uchar (Z.rem r 256))) ;;
      generate_mac_address_loop b (S i) todo'
  end.

Definition generate_mac_address : prog MacAddress :=
  let mac_addr := mac_addr_init in
  b <- generate_mac_address_loop (bytes mac_addr) 0 6 ;;
  b0 <- defined (load b 0) ;;
  b <- defined (store b 0 (uchar (Z.lor (Z.land b0 0xFE) 0x02))) ;;
  Ret {| bytes := b |}.

Definition change_mac_address (interface_name : string)
    (new_mac : MacAddress) : prog bool :=
  let interface_request := interface_request_init in
  socket_fd <- socket AF_INET SOCK_DGRAM IPPROTO_IP ;;
  if socket_fd <? 0 then
    perror "socket" ;;
    Ret false
  else
  name <- defined (strncpy (ifr_name interface_request)
                     (c_str interface_name) (IFNAMSIZ - 1)) ;;
  name <- defined (store name (IFNAMSIZ - 1) 0) ;;
  let interface_request := set_ifr_name name interface_request in
  '(rc, interface_request) <-
    ioctl socket_fd SIOCGIFFLAGS interface_request ;;
  if rc <? 0 then
    perror "ioctl (SIOCGIFFLAGS)" ;;
    close socket_fd ;;
    Ret false
  else
  let original_flags := ifr_flags interface_request in
  let interface_request :=
    set_ifr_flags (Z.land (ifr_flags interface_request) (Z.lnot IFF_UP))
      interface_request in
  '(rc, interface_request) <-
    ioctl socket_fd SIOCSIFFLAGS interface_request ;;
  if rc <? 0 then
    perror "ioctl (SIOCSIFFLAGS - down)" ;;
    close socket_fd ;;
    Ret false
  else
  let interface_request :=
    set_ifr_hwaddr_sa_family ARPHRD_ETHER interface_request in
  sa_data <- defined (memcpy (ifr_hwaddr_sa_data interface_request)
                        (bytes new_mac) 6) ;;
  let interface_request :=
    set_ifr_hwaddr_sa_data sa_data interface_request in
  '(rc, interface_request) <-
    ioctl socket_fd SIOCSIFHWADDR interface_request ;;
  if rc <? 0 then
    perror "ioctl (SIOCSIFHWADDR)" ;;
    let interface_request :=
      set_ifr_flags original_flags interface_request in
    ioctl socket_fd SIOCSIFFLAGS interface_request ;;
    close socket_fd ;;
    Ret false
  else
  let interface_request :=
    set_ifr_flags original_flags interface_request in
  '(rc, interface_request) <-
    ioctl socket_fd SIOCSIFFLAGS interface_request ;;
  if rc <? 0 then
    perror "ioctl (SIOCSIFFLAGS - up)" ;;
    close socket_fd ;;
    Ret false
  else
  close socket_fd ;;
  Ret true.

(** The end of [main]: the report and the exit status. *)
Definition report (ok : bool) (new_mac : MacAddress) : prog Z :=
  if ok then
    printf (report_new_mac new_mac) ;;
    Ret EXIT_SUCCESS
  else
    fprintf stderr report_failure ;;
    Ret EXIT_FAILURE.

(** [argv] holds the [argc] argument strings. *)
Definition main (argv : list string) : prog Z :=
  let argc := Z.of_nat (length argv) in
  if argc <? 2 then
    fprintf stderr (usage argv) ;;
    Ret EXIT_FAILURE
  else
  pid <- getpid ;;
  srand pid ;;
  new_mac <- generate_mac_address ;;
  argv_1 <- defined (argv !! 1%nat) ;;
  ok <- change_mac_address argv_1 new_mac ;;
  report ok new_mac.

End Program.

(** ** Executions *)

(** An event of an execution: a call with what it gave back. *)
Definition event : Type := { c : call & result c }.

Record outcome (W A : Type) := Outcome {
  returned : option A;
  final : W;
  trace : list event
}.
Arguments Outcome {W A} _ _ _.
Arguments returned {W A} _.
Arguments final {W A} _.
Arguments trace {W A} _.

(** The outcome of an execution that starts with the event [e] and goes
    on as [o]. *)
Definition after {W A} (e : event) (o : outcome W A) : outcome W A :=
  Outcome (returned o) (final o) (e :: trace o).

Section Run.

(** The operating system: a state and an answer to every call. *)
Context {W : Type} (os : ∀ c : call, W → result c * W).

Fixpoint run {A} (p : prog A) (w : W) : outcome W A :=
  match p with
  | Ret a => Outcome (Some a) w []
  | Undefined => Outcome None w []
  | Call c k =>
      let (r, w') := os c w in
      after (existT c r) (run (k r) w')
  end.

End Run.

(** *** Reading events *)

(** The return value of a system call. *)
Definition ev_ret (e : event) : option Z :=
  match e with
  | existT (sys_socket _ _ _) r => Some r
  | existT (sys_ioctl _ _ _) r => Some (fst r)
  | existT (sys_close _) r => Some r
  | _ => None
  end.

(** The request code and the request structure of an [ioctl]. *)
Definition ev_ioctl (e : event) : option (Z * ifreq) :=
  match projT1 e with
  | sys_ioctl _ request argp => Some (request, argp)
  | _ => None
  end.

Definition is_ioctl (request : Z) (e : event) : bool :=
  match ev_ioctl e with
  | Some (q, _) => q =? request
  | None => false
  end.

Definition is_socket (e : event) : bool :=
  match projT1 e with sys_socket _ _ _ => true | _ => false end.

Definition is_rand (e : event) : bool :=
  match projT1 e with lib_rand => true | _ => false end.

(** The privileged control operations: creating the socket and the
    requests made through it. *)
Definition is_control (e : event) : bool :=
  match projT1 e with
  | sys_socket _ _ _ | sys_ioctl _ _ _ => true
  | _ => false
  end.

(** A system call fails when it returns a negative value. *)
Definition failed (e : event) : bool :=
  match ev_ret e with
  | Some r => r <? 0
  | None => false
  end.

Definition succeeded (e : event) : bool :=
  match ev_ret e with
  | Some r => negb (r <? 0)
  | None => false
  end.

(** The flags a request carries, and whether they leave the interface
    down. *)
Definition ev_flags (e : event) : option Z :=
  match ev_ioctl e with
  | Some (_, argp) => Some (ifr_flags argp)
  | None => None
  end.

Definition clears_IFF_UP (e : event) : bool :=
  match ev_flags e with
  | Some f => Z.land f IFF_UP =? 0
  | None => false
  end.

(** The request structure as the kernel leaves it. *)
Definition ev_reply (e : event) : option ifreq :=
  match e with
  | existT (sys_ioctl _ _ _) r => Some (snd r)
  | _ => None
  end.

Definition ev_close (e : event) : option Z :=
  match projT1 e with sys_close fd => Some fd | _ => None end.

Definition ev_rand (e : event) : option Z :=
  match e with
  | existT lib_rand r => Some r
  | _ => None
  end.

Definition is_fprintf (e : event) : bool :=
  match projT1 e with lib_fprintf _ _ => true | _ => false end.

(** The control operations of an execution, the descriptors it closed
    and the values it drew from the random source, each in order. *)
Definition controls (tr : list event) : list event :=
  List.filter is_control tr.
Definition closed (tr : list event) : list Z := omap ev_close tr.
Definition rand_values (tr : list event) : list Z := omap ev_rand tr.
Definition ioctl_requests (tr : list event) : list Z :=
  omap (λ e, fst <$> ev_ioctl e) tr.

(** All five control operations were made, in the order of the source,
    and each succeeded; some control operation failed. *)
Definition all_five_succeed (tr : list event) : bool :=
  match controls tr with
  | [e1; e2; e3; e4; e5] =>
      is_socket e1 && is_ioctl SIOCGIFFLAGS e2 && is_ioctl SIOCSIFFLAGS e3 &&
      is_ioctl SIOCSIFHWADDR e4 && is_ioctl SIOCSIFFLAGS e5 &&
      forallb succeeded [e1; e2; e3; e4; e5]
  | _ => false
  end.
Definition one_fails (tr : list event) : bool :=
  existsb (λ e, is_control e && failed e) tr.

(** Sequencing of executions, as [bind] sequences programs. *)
Definition and_then {W A B} (o : outcome W A) (k : A → W → outcome W B)
  : outcome W B :=
  match returned o with
  | Some a =>
      let o' := k a (final o) in
      Outcome (returned o') (final o') (trace o ++ trace o')
  | None => Outcome None (final o) (trace o)
  end.

(** The bytes of a character array up to its first null byte. *)
Fixpoint until_nul (l : list Z) : list Z :=
  match l with
  | [] => []
  | c :: l' => if c =? 0 then [] else c :: until_nul l'
  end.

(** The name the kernel is asked about: the bytes of the string, cut to
    [IFNAMSIZ - 1]. *)
Definition ifname (interface_name : string) : list Z :=
  take (IFNAMSIZ - 1) (until_nul (c_str interface_name)).

(** An operating system that leaves the name in the request structure
    alone when it answers an [ioctl]. *)
Definition keeps_name {W} (os : ∀ c : call, W → result c * W) : Prop :=
  ∀ fd request argp w,
    ifr_name (os (sys_ioctl fd request argp) w).1.2 = ifr_name argp.

(** *** Order of the requests *)

(** Every hardware-address request comes after a flags request that
    clears [IFF_UP]. *)
Definition down_before_change (tr : list event) : Prop :=
  ∀ i e, tr !! i = Some e → is_ioctl SIOCSIFHWADDR e →
    ∃ j d, (j < i)%nat ∧ tr !! j = Some d ∧
           is_ioctl SIOCSIFFLAGS d ∧ clears_IFF_UP d.

(** A flags request that follows the bring-down (the request that
    restores the flags) has, between the two, a hardware-address request
    for which [P] holds. *)
Definition up_after_change (P : event → bool) (tr : list event) : Prop :=
  ∀ j d i e, (j < i)%nat →
    tr !! j = Some d → is_ioctl SIOCSIFFLAGS d →
    tr !! i = Some e → is_ioctl SIOCSIFFLAGS e →
    ∃ m c, (j < m < i)%nat ∧ tr !! m = Some c ∧
           is_ioctl SIOCSIFHWADDR c ∧ P c.

(** The fixed order as the specification words it: the flags are
    restored only after the hardware address has been set with
    success. *)
Definition down_change_up_strict (tr : list event) : Prop :=
  down_before_change tr ∧ up_after_change succeeded tr.

(** ** A model of the kernel *)

(** A network device: its flag word and its hardware address. *)
Record netdev := { dev_flags : Z; dev_addr : list Z }.

(** The state of the system.  [k_faults] says, for each coming [socket]
    or [ioctl] call in turn, whether the kernel refuses it (no privilege,
    busy device, ...); when the list is used up no call is refused. *)
Record kernel := {
  k_dev : gmap (list Z) netdev;
  k_faults : list bool;
  k_next_fd : Z;
  k_pid : Z;
  k_rand : list Z
}.

Definition next_fault (k : kernel) : bool * kernel :=
  match k_faults k with
  | [] => (false, k)
  | f :: fs =>
      (f, {| k_dev := k_dev k; k_faults := fs; k_next_fd := k_next_fd k;
             k_pid := k_pid k; k_rand := k_rand k |})
  end.

Definition set_dev (n : list Z) (d : netdev) (k : kernel) : kernel :=
  {| k_dev := <[n:=d]> (k_dev k); k_faults := k_faults k;
     k_next_fd := k_next_fd k; k_pid := k_pid k; k_rand := k_rand k |}.

(** The netdevice requests on the device named by [ifr_name]: a refused
    request, a request for a device that does not exist and an unknown
    request return -1 and change nothing.

    The model is one of plain device names and of a flag word that is
    the caller's: the device is looked up by the whole name, and
    [SIOCSIFFLAGS] keeps the word as it is given.  Linux cuts an alias
    label (the part of the name from a colon on) before it looks the
    device up, and it derives [IFF_RUNNING] and its like from the state
    of the device.  What is proved on the model is therefore about
    names without a label, and, of the flags, about what the caller
    sets: [IFF_UP] and the word a successful request brings back. *)
Definition linux_ioctl (request : Z) (argp : ifreq) (k : kernel)
  : (Z * ifreq) * kernel :=
  let (refused, k) := next_fault k in
  if refused then ((-1, argp), k) else
  let n := until_nul (ifr_name argp) in
  match k_dev k !! n with
  | None => ((-1, argp), k)
  | Some d =>
      if request =? SIOCGIFFLAGS then
        ((0, set_ifr_flags (dev_flags d) argp), k)
      else if request =? SIOCSIFFLAGS then
        ((0, argp),
         set_dev n {| dev_flags := ifr_flags argp; dev_addr := dev_addr d |} k)
      else if request =? SIOCSIFHWADDR then
        if ifr_hwaddr_sa_family argp =? ARPHRD_ETHER then
          ((0, argp),
           set_dev n {| dev_flags := dev_flags d;
                        dev_addr := take 6 (ifr_hwaddr_sa_data argp) |} k)
        else ((-1, argp), k)
      else ((-1, argp), k)
  end.

Definition linux (c : call) (k : kernel) : result c * kernel :=
  match c return result c * kernel with
  | sys_socket _ _ _ =>
      let (refused, k) := next_fault k in
      if refused then (-1, k)
      else (k_next_fd k,
            {| k_dev := k_dev k; k_faults := k_faults k;
               k_next_fd := k_next_fd k + 1; k_pid := k_pid k;
               k_rand := k_rand k |})
  | sys_ioctl _ request argp => linux_ioctl request argp k
  | sys_close _ => (0, k)
  | sys_getpid => (k_pid k, k)
  | lib_srand _ => (tt, k)
  | lib_rand =>
      (default 0 (head (k_rand k)),
       {| k_dev := k_dev k; k_faults := k_faults k;
          k_next_fd := k_next_fd k; k_pid := k_pid k;
          k_rand := tail (k_rand k) |})
  | lib_perror _ => (tt, k)
  | lib_fprintf _ _ => (tt, k)
  end.

(** The flags of an interface, as [SIOCGIFFLAGS] reports them in the
    [short] of the request structure, and its hardware address. *)
Definition if_flags (k : kernel) (n : list Z) : option Z :=
  (λ d, sshort (dev_flags d)) <$> k_dev k !! n.
Definition if_hwaddr (k : kernel) (n : list Z) : option (list Z) :=
  dev_addr <$> k_dev k !! n.

(** *** Sample state: one Ethernet interface, up and running *)

Definition eth0 : netdev :=
  {| dev_flags := 0x1043;
     dev_addr := [0x00; 0x16; 0x3e; 0x12; 0x34; 0x56] |}.

Definition host (faults : list bool) : kernel :=
  {| k_dev := {[ c_str "eth0" := eth0 ]}; k_faults := faults;
     k_next_fd := 3; k_pid := 4711;
     k_rand := [1804289383; 846930886; 1681692777;
                1714636915; 1957747793; 424238335] |}.

Definition stack_mac : MacAddress := {| bytes := [9; 9; 9; 9; 9; 9] |}.
Definition stack_ifreq : ifreq :=
  {| ifr_name := replicate 16 0x55; ifr_ifru_head := 0xAAAA;
     ifr_hwaddr_sa_data := replicate 14 0x55 |}.

Definition sample_mac : MacAddress :=
  {| bytes := [0x66; 0xC6; 0x69; 0x73; 0x51; 0xFF] |}.
Definition sample_argv : list string := ["macmasq"; "eth0"]%string.

(** *** Restoring the flags after a failure, as the specification asks *)



(** *** More readers of events *)

(** The text given to [perror], and the texts of an execution in order. *)
Definition ev_perror (e : event) : option string :=
  match projT1 e with lib_perror s => Some s | _ => None end.
Definition perror_messages (tr : list event) : list string :=
  omap ev_perror tr.

(** The descriptor an [ioctl] or a [close] is made on. *)
Definition ev_fd (e : event) : option Z :=
  match projT1 e with
  | sys_ioctl fd _ _ | sys_close fd => Some fd
  | _ => None
  end.

(** The seed given to [srand], and what is written to [stdout]. *)
Definition ev_srand (e : event) : option Z :=
  match projT1 e with lib_srand seed => Some seed | _ => None end.
Definition ev_stdout (e : event) : option string :=
  match projT1 e with lib_fprintf stdout text => Some text | _ => None end.

(** The five texts [change_mac_address] gives to [perror]. *)
Definition diagnostics : list string :=
  [ "socket"; "ioctl (SIOCGIFFLAGS)"; "ioctl (SIOCSIFFLAGS - down)";
    "ioctl (SIOCSIFHWADDR)"; "ioctl (SIOCSIFFLAGS - up)" ]%string.

(** A kernel state in which no call is refused. *)
Definition no_faults (k : kernel) : Prop := k_faults k = [].


(** *** Request structures of the C type *)

(** The arrays of a [struct ifreq] have the sizes their C types give
    them: [char ifr_name[IFNAMSIZ]] and [char sa_data[14]]. *)
Definition sized (r : ifreq) : Prop :=
  length (ifr_name r) = IFNAMSIZ ∧ length (ifr_hwaddr_sa_data r) = 14%nat.

(** An operating system answers an [ioctl] in the structure of the
    caller, so the arrays of the answer have the sizes of the request. *)
Definition keeps_sizes {W} (os : ∀ c : call, W → result c * W) : Prop :=
  ∀ fd request argp w,
    sized argp → sized (os (sys_ioctl fd request argp) w).1.2.

(** * Properties *)

(** ** Integer conversions *)

Lemma uchar_rem (r : Z) : uchar (Z.rem r 256) = r mod 256.
Proof.
  unfold uchar. pose proof (Z.quot_rem' r 256) as E.
  replace (Z.rem r 256) with (r + (- (r ÷ 256)) * 256) by lia.
  apply Z_mod_plus_full.
Qed.

Lemma uchar_bits (z k : Z) :
  0 ≤ k < 8 → Z.testbit (z mod 256) k = Z.testbit z k.
Proof.
  intros. change 256 with (2 ^ 8).
  rewrite Z.mod_pow2_bits_low by lia. reflexivity.
Qed.

(** [(b & 0xFE) | 0x02], stored in an [unsigned char]. *)
Lemma first_byte_bits (b : Z) :
  let b' := uchar (Z.lor (Z.land b 0xFE) 0x02) in
  0 ≤ b' < 256 ∧ Z.testbit b' 1 = true ∧ Z.testbit b' 0 = false ∧
  ∀ k, 2 ≤ k < 8 → Z.testbit b' k = Z.testbit b k.
Proof.
  intros b'. subst b'. unfold uchar.
  split; [apply Z.mod_pos_bound; lia|]. split; [|split].
  - rewrite uchar_bits by lia. rewrite Z.lor_spec, orb_true_r. reflexivity.
  - rewrite uchar_bits by lia. rewrite Z.lor_spec, Z.land_spec. simpl.
    rewrite andb_false_r. reflexivity.
  - intros k Hk. rewrite uchar_bits by lia. rewrite Z.lor_spec, Z.land_spec.
    assert (k = 2 ∨ k = 3 ∨ k = 4 ∨ k = 5 ∨ k = 6 ∨ k = 7) as Hc by lia.
    destruct Hc as [->|[->|[->|[->|[->| ->]]]]]; simpl;
      rewrite andb_true_r, orb_false_r; reflexivity.
Qed.

Lemma sshort_range (z : Z) : -32768 ≤ sshort z < 32768.
Proof.
  unfold sshort. pose proof (Z.mod_pos_bound (z + 32768) 65536 ltac:(lia)).
  lia.
Qed.

Lemma sshort_id (z : Z) : -32768 ≤ z < 32768 → sshort z = z.
Proof. intros H. unfold sshort. rewrite Z.mod_small by lia. lia. Qed.

Lemma sshort_ushort (z : Z) : sshort (ushort z) = sshort z.
Proof. unfold sshort, ushort. rewrite Zplus_mod_idemp_l. reflexivity. Qed.

Lemma sshort_sshort (z : Z) : sshort (sshort z) = sshort z.
Proof. apply sshort_id, sshort_range. Qed.

Lemma sshort_even (z : Z) : Z.land (sshort z) 1 = Z.land z 1.
Proof.
  change 1 with (Z.ones 1). rewrite !Z.land_ones by lia.
  unfold sshort. pose proof (Z.div_mod (z + 32768) 65536 ltac:(lia)) as E.
  replace ((z + 32768) mod 65536 - 32768)
    with (z + (- (32768 * ((z + 32768) / 65536))) * 2 ^ 1) by lia.
  apply Z_mod_plus_full.
Qed.

Lemma land_lnot_IFF_UP_range (f : Z) :
  -32768 ≤ f < 32768 → -32768 ≤ Z.land f (Z.lnot IFF_UP) < 32768.
Proof.
  intros H. rewrite <- Z.ldiff_land. change IFF_UP with (Z.ones 1).
  rewrite Z.ldiff_ones_r by lia.
  rewrite Z.shiftr_div_pow2, Z.shiftl_mul_pow2 by lia.
  change (2 ^ 1) with 2. pose proof (Z.div_mod f 2 ltac:(lia)).
  pose proof (Z.mod_pos_bound f 2 ltac:(lia)). lia.
Qed.

(** [ifr_flags = original_flags] gives back what [original_flags =
    ifr_flags] took, whatever else the structure holds by then. *)
Lemma ifr_flags_restored (r r' : ifreq) :
  ifr_flags (set_ifr_flags (ifr_flags r) r') = ifr_flags r.
Proof. unfold ifr_flags; simpl. rewrite sshort_ushort. apply sshort_sshort. Qed.

(** [ifr_flags &= ~IFF_UP] *)
Lemma brought_down_flags (r r' : ifreq) :
  ifr_flags (set_ifr_flags (Z.land (ifr_flags r) (Z.lnot IFF_UP)) r') =
  Z.land (ifr_flags r) (Z.lnot IFF_UP).
Proof.
  unfold ifr_flags at 1. simpl. rewrite sshort_ushort.
  apply sshort_id, land_lnot_IFF_UP_range, sshort_range.
Qed.

Lemma bring_down_clears (r : ifreq) :
  Z.land (ifr_flags (set_ifr_flags (Z.land (ifr_flags r) (Z.lnot IFF_UP)) r))
    IFF_UP = 0.
Proof.
  rewrite brought_down_flags, <- Z.land_assoc. apply Z.land_0_r.
Qed.

(** ** Memory functions *)

Section Memory.

Local Open Scope nat_scope.
Implicit Types dest src block l : list Z.

Lemma store_Some dest i v l :
  store dest i v = Some l → i < length dest ∧ l = blit dest i [v].
Proof.
  unfold store. destruct (Nat.ltb_spec i (length dest)); [|discriminate].
  intros [= <-]. split; [assumption|]. unfold blit.
  rewrite insert_take_drop by assumption. simpl. do 3 f_equal. lia.
Qed.

Lemma store_is_Some dest i v : i < length dest → is_Some (store dest i v).
Proof.
  intros H. unfold store. apply Nat.ltb_lt in H. rewrite H. eauto.
Qed.

Lemma length_blit dest i block :
  i + length block ≤ length dest → length (blit dest i block) = length dest.
Proof.
  intros H. unfold blit. rewrite !length_app, length_take, length_drop. lia.
Qed.

Lemma blit_nil dest i : blit dest i [] = dest.
Proof. unfold blit. simpl. rewrite Nat.add_0_r. apply take_drop. Qed.

Lemma blit_blit dest i b1 b2 :
  i + length b1 ≤ length dest →
  blit (blit dest i b1) (i + length b1) b2 = blit dest i (b1 ++ b2).
Proof.
  intros H. unfold blit.
  assert (length (take i dest ++ b1) = i + length b1) as E
    by (rewrite length_app, length_take; lia).
  rewrite (app_assoc (take i dest) b1).
  rewrite take_app_length' by (symmetry; exact E).
  rewrite (drop_app_add' _ _ (i + length b1)) by (symmetry; exact E).
  rewrite drop_drop, length_app, <- !app_assoc, Nat.add_assoc. reflexivity.
Qed.

Lemma blit_cons dest i v block :
  i < length dest →
  blit (blit dest i [v]) (S i) block = blit dest i (v :: block).
Proof.
  intros H. change (v :: block) with ([v] ++ block).
  rewrite <- (blit_blit dest i [v] block) by (simpl; lia).
  simpl. rewrite Nat.add_1_r. reflexivity.
Qed.

Lemma strncpy_pad_Some dest i todo l :
  strncpy_pad dest i todo = Some l → l = blit dest i (replicate todo 0%Z).
Proof.
  revert dest i l. induction todo as [|todo IH]; intros dest i l; simpl.
  - intros [= <-]. symmetry. apply blit_nil.
  - destruct (store dest i 0%Z) as [d|] eqn:E; [|discriminate]. simpl.
    apply store_Some in E as [Hi ->]. intros H. apply IH in H as ->.
    apply blit_cons. exact Hi.
Qed.

Lemma strncpy_copy_Some dest src i todo l :
  strncpy_copy dest src i todo = Some l →
  l = blit dest i (take todo (until_nul src) ++
                   replicate (todo - length (until_nul src)) 0%Z).
Proof.
  revert dest src i l. induction todo as [|todo IH]; intros dest src i l.
  - simpl. intros [= <-]. symmetry. apply blit_nil.
  - cbn [strncpy_copy]. destruct src as [|c src].
    + intros H. apply strncpy_pad_Some in H. exact H.
    + cbn [until_nul]. destruct (c =? 0)%Z.
      * intros H. apply strncpy_pad_Some in H. exact H.
      * destruct (store dest i c) as [d|] eqn:E; [|discriminate]. simpl.
        apply store_Some in E as [Hi ->]. intros H. apply IH in H as ->.
        apply blit_cons. exact Hi.
Qed.

Lemma memcpy_from_Some dest src i todo l :
  memcpy_from dest src i todo = Some l →
  l = blit dest i (take todo (drop i src)) ∧
  (i ≤ length src → i + todo ≤ length src).
Proof.
  revert dest i l. induction todo as [|todo IH]; intros dest i l; simpl.
  - intros [= <-]. rewrite take_0, blit_nil. split; [reflexivity|lia].
  - unfold load. destruct (src !! i) as [v|] eqn:Ev; [|discriminate]. simpl.
    destruct (store dest i v) as [d|] eqn:E; [|discriminate]. simpl.
    apply store_Some in E as [Hi ->]. intros H. apply IH in H as [-> Hlen].
    split; [|apply lookup_lt_Some in Ev; lia].
    rewrite (drop_S _ _ _ Ev). simpl. apply blit_cons. exact Hi.
Qed.

Lemma strncpy_pad_is_Some dest i todo :
  i + todo ≤ length dest → is_Some (strncpy_pad dest i todo).
Proof.
  revert dest i. induction todo as [|todo IH]; intros dest i H; simpl.
  - eauto.
  - destruct (store_is_Some dest i 0%Z) as [d E]; [lia|]. rewrite E. simpl.
    apply IH. apply store_Some in E as [_ ->].
    rewrite length_blit by (simpl; lia). lia.
Qed.

Lemma strncpy_copy_is_Some dest src i todo :
  i + todo ≤ length dest → is_Some (strncpy_copy dest src i todo).
Proof.
  revert dest src i. induction todo as [|todo IH]; intros dest src i H.
  - simpl. eauto.
  - cbn [strncpy_copy]. destruct src as [|c src].
    + apply strncpy_pad_is_Some. exact H.
    + destruct (c =? 0)%Z; [apply strncpy_pad_is_Some; exact H|].
      destruct (store_is_Some dest i c) as [d E]; [lia|]. rewrite E. simpl.
      apply IH. apply store_Some in E as [_ ->].
      rewrite length_blit by (simpl; lia). lia.
Qed.

Lemma memcpy_from_is_Some dest src i todo :
  i + todo ≤ length dest → i + todo ≤ length src →
  is_Some (memcpy_from dest src i todo).
Proof.
  revert dest i. induction todo as [|todo IH]; intros dest i Hd Hs; simpl.
  - eauto.
  - unfold load. destruct (lookup_lt_is_Some_2 src i) as [v Ev]; [lia|].
    rewrite Ev. simpl.
    destruct (store_is_Some dest i v) as [d E]; [lia|]. rewrite E. simpl.
    apply IH; [|lia]. apply store_Some in E as [_ ->].
    rewrite length_blit by (simpl; lia). lia.
Qed.

Lemma memcpy_take dest src l :
  memcpy dest src 6 = Some l → take 6 l = take 6 src.
Proof.
  unfold memcpy. intros H. apply memcpy_from_Some in H as [-> Hlen].
  specialize (Hlen ltac:(lia)). unfold blit.
  rewrite take_0, drop_0. simpl "++".
  rewrite take_app_length'; [reflexivity|]. rewrite length_take. lia.
Qed.

Lemma until_nul_nonzero (l : list Z) : Forall (λ c, c ≠ 0%Z) (until_nul l).
Proof.
  induction l as [|c l IH]; simpl; [constructor|].
  destruct (Z.eqb_spec c 0); [constructor|]. constructor; assumption.
Qed.

Lemma until_nul_app (a rest : list Z) :
  Forall (λ c, c ≠ 0%Z) a → until_nul (a ++ 0%Z :: rest) = a.
Proof.
  induction 1 as [|c a Hc _ IH]; simpl; [reflexivity|].
  destruct (Z.eqb_spec c 0); [contradiction|]. rewrite IH. reflexivity.
Qed.

Lemma length_ifname (s : string) : length (ifname s) ≤ IFNAMSIZ - 1.
Proof. unfold ifname. rewrite length_take. lia. Qed.

(** The name array after [strncpy] and the write of the last byte. *)
Lemma name_buffer dest (s : string) l buf :
  strncpy dest (c_str s) (IFNAMSIZ - 1) = Some l →
  store l (IFNAMSIZ - 1) 0%Z = Some buf →
  IFNAMSIZ ≤ length dest ∧
  buf = ifname s ++ replicate (IFNAMSIZ - length (ifname s)) 0%Z
          ++ drop IFNAMSIZ dest.
Proof.
  unfold strncpy. intros Hl Hb. apply strncpy_copy_Some in Hl.
  apply store_Some in Hb as [Hlt Hb].
  pose proof (length_ifname s) as Hn. fold (ifname s) in Hl.
  set (n := ifname s) in *.
  assert (length (until_nul (c_str s)) = length n ∧ length n < IFNAMSIZ - 1
          ∨ length n = IFNAMSIZ - 1 ∧
            IFNAMSIZ - 1 ≤ length (until_nul (c_str s))) as Hcase.
  { subst n. unfold ifname. rewrite length_take. lia. }
  assert (length (n ++ replicate (IFNAMSIZ - 1 - length (until_nul (c_str s)))
                    0%Z) = IFNAMSIZ - 1) as Hblock.
  { rewrite length_app, length_replicate. lia. }
  assert (IFNAMSIZ ≤ length dest) as Hdest.
  { subst l. unfold blit in Hlt.
    rewrite !length_app, length_take, length_drop, ?length_app,
      ?length_replicate in Hlt.
    unfold IFNAMSIZ in *. lia. }
  split; [exact Hdest|].
  subst buf l.
  set (B := n ++ replicate _ 0%Z) in *.
  rewrite <- Hblock. change (length B) with (0 + length B) at 1.
  rewrite blit_blit by (simpl; rewrite Hblock; unfold IFNAMSIZ in *; lia).
  unfold blit. rewrite take_0, length_app, Hblock. subst B. simpl.
  rewrite <- !app_assoc. f_equal.
  replace (IFNAMSIZ - length n)
    with (S (IFNAMSIZ - 1 - length (until_nul (c_str s))))
    by (unfold IFNAMSIZ in *; lia).
  rewrite replicate_S_end, <- app_assoc. reflexivity.
Qed.

(** The kernel reads the name up to the null byte: the name of the
    argument, cut to [IFNAMSIZ - 1] bytes. *)
Lemma target_name dest (s : string) l buf :
  strncpy dest (c_str s) (IFNAMSIZ - 1) = Some l →
  store l (IFNAMSIZ - 1) 0%Z = Some buf →
  until_nul buf = ifname s.
Proof.
  intros Hl Hb. destruct (name_buffer _ _ _ _ Hl Hb) as [_ ->].
  pose proof (length_ifname s) as Hn.
  replace (IFNAMSIZ - length (ifname s))
    with (S (IFNAMSIZ - 1 - length (ifname s)))
    by (unfold IFNAMSIZ in *; lia).
  simpl replicate. rewrite <- app_comm_cons.
  apply until_nul_app. unfold ifname. apply Forall_take, until_nul_nonzero.
Qed.

Lemma until_nul_padded (s : string) :
  until_nul (ifname s ++ replicate (IFNAMSIZ - length (ifname s)) 0%Z) =
  ifname s.
Proof.
  pose proof (length_ifname s) as Hn.
  replace (IFNAMSIZ - length (ifname s))
    with (S (IFNAMSIZ - 1 - length (ifname s)))
    by (unfold IFNAMSIZ in *; lia).
  apply until_nul_app. unfold ifname. apply Forall_take, until_nul_nonzero.
Qed.

(** With an array of [IFNAMSIZ] bytes both writes are inside the array,
    whatever the length of the name. *)
Lemma name_array dest (s : string) :
  length dest = IFNAMSIZ →
  ∃ l, strncpy dest (c_str s) (IFNAMSIZ - 1) = Some l ∧
       store l (IFNAMSIZ - 1) 0%Z =
         Some (ifname s ++ replicate (IFNAMSIZ - length (ifname s)) 0%Z).
Proof.
  intros Hlen.
  destruct (strncpy_copy_is_Some dest (c_str s) 0 (IFNAMSIZ - 1))
    as [l Hl]; [rewrite Hlen; unfold IFNAMSIZ; lia|].
  fold (strncpy dest (c_str s) (IFNAMSIZ - 1)) in Hl.
  assert (length l = IFNAMSIZ) as Hll.
  { pose proof Hl as Hl'. apply strncpy_copy_Some in Hl' as ->.
    rewrite length_blit; [exact Hlen|].
    rewrite length_app, length_take, length_replicate, Hlen.
    unfold IFNAMSIZ. lia. }
  destruct (store_is_Some l (IFNAMSIZ - 1) 0%Z) as [buf Hbuf];
    [rewrite Hll; unfold IFNAMSIZ; lia|].
  destruct (name_buffer _ _ _ _ Hl Hbuf) as [_ Ebuf].
  rewrite drop_ge, app_nil_r in Ebuf by (rewrite Hlen; lia).
  exists l. split; [exact Hl|]. rewrite Hbuf, Ebuf. reflexivity.
Qed.

End Memory.

(** ** Executions step by step *)

Section Sequencing.

Context {W : Type} (os : ∀ c : call, W → result c * W).

Lemma run_bind {A B} (p : prog A) (f : A → prog B) w :
  run os (bind p f) w = and_then (run os p w) (λ a w', run os (f a) w').
Proof.
  revert w. induction p as [a|c k IH|]; intros w; simpl.
  - unfold and_then. simpl. destruct (run os (f a) w); reflexivity.
  - destruct (os c w) as [r w']. rewrite IH. unfold and_then. simpl.
    destruct (returned (run os (k r) w')); reflexivity.
  - reflexivity.
Qed.

Lemma and_then_ext {A B} (o : outcome W A) (k1 k2 : A → W → outcome W B) :
  (∀ a w, k1 a w = k2 a w) → and_then o k1 = and_then o k2.
Proof.
  intros H. unfold and_then. destruct (returned o); [|reflexivity].
  rewrite H. reflexivity.
Qed.

Lemma trace_and_then {A B} (o : outcome W A) (k : A → W → outcome W B) :
  trace (and_then o k) =
  trace o ++ match returned o with
             | Some a => trace (k a (final o))
             | None => []
             end.
Proof.
  unfold and_then. destruct (returned o); simpl; [reflexivity|].
  symmetry. apply app_nil_r.
Qed.

Lemma returned_and_then {A B} (o : outcome W A) (k : A → W → outcome W B) :
  returned (and_then o k) =
  match returned o with
  | Some a => returned (k a (final o))
  | None => None
  end.
Proof. unfold and_then. destruct (returned o); reflexivity. Qed.

End Sequencing.

(** One step of an execution: answer the call at the head of the
    program, or decide the test or the memory operation there. *)
Ltac expose :=
  cbv delta [socket ioctl close perror fprintf printf rand getpid srand
             perform];
  cbn [bind defined].

Ltac head_of p :=
  lazymatch p with
  | bind ?q _ => head_of q
  | _ => p
  end.

Ltac step os :=
  expose;
  lazymatch goal with
  | |- context [run os ?p ?w] =>
      let h := head_of p in
      lazymatch h with
      | Call ?c ?k =>
          let T := type of (run os p w) in
          change (run os p w)
            with (let (r, w') return T := os c w in
                  after (existT c r) (run os (k r) w'));
          let r := fresh "r" in
          let w' := fresh "w" in
          destruct (os c w) as [r w'] eqn:?; cbn beta
      | defined ?o => destruct o eqn:?
      | (if ?b then _ else _) => destruct b eqn:?
      | (let (_, _) := ?x in _) => destruct x
      | Ret ?a => change (run os (Ret a) w) with (Outcome (Some a) w [])
      | @Undefined ?A =>
          change (run os (@Undefined A) w) with (@Outcome _ A None w [])
      end
  end.

(** All the ways through a program. *)
Ltac paths os := repeat step os; cbn [after returned trace final].

(** Cases of [e ∈ tr] and of [tr !! i = Some e] on a trace that is
    written out. *)
Ltac elems H :=
  repeat (apply elem_of_cons in H; destruct H as [H|H]; [subst|]);
  try (apply elem_of_nil in H; destruct H).

Ltac nths H i :=
  repeat (destruct i as [|i]; [injection H as H; subst|]); try discriminate H.

(** An event that is not of the kind, or has not the result, that a
    hypothesis says. *)
Ltac absurd_event :=
  match goal with
  | H : Is_true (is_ioctl _ _) |- _ => solve [destruct H]
  | H : Is_true (is_socket _) |- _ => solve [destruct H]
  | H : Is_true (failed _) |- _ =>
      unfold failed in H; cbn in H;
      match type of H with
      | Is_true (?x <? 0) =>
          match goal with E : (x <? 0) = false |- _ =>
            rewrite E in H; solve [destruct H] end
      end
  | H : Is_true (succeeded _) |- _ =>
      unfold succeeded in H; cbn in H;
      match type of H with
      | Is_true (negb (?x <? 0)) =>
          match goal with E : (x <? 0) = true |- _ =>
            rewrite E in H; solve [destruct H] end
      end
  end.

Ltac fields :=
  cbn [fst snd ifr_name ifr_ifru_head ifr_hwaddr_sa_data set_ifr_name
       set_ifr_flags set_ifr_hwaddr_sa_family set_ifr_hwaddr_sa_data].

Ltac fields_in H :=
  cbn [fst snd ifr_name ifr_ifru_head ifr_hwaddr_sa_data set_ifr_name
       set_ifr_flags set_ifr_hwaddr_sa_family set_ifr_hwaddr_sa_data] in H.

Ltac fields_all :=
  cbn [fst snd ifr_name ifr_ifru_head ifr_hwaddr_sa_data set_ifr_name
       set_ifr_flags set_ifr_hwaddr_sa_family set_ifr_hwaddr_sa_data
       dev_flags dev_addr] in *.

(** What an operating system that keeps names says of each answer. *)
Ltac kept Hkeep :=
  repeat match goal with
  | H : ?os (sys_ioctl ?fd ?q ?a) ?w = (_, _, _) |- _ =>
      let K := fresh "K" in
      pose proof (Hkeep fd q a w) as K; rewrite H in K; fields_in K;
      revert H
  end; intros.

(** ** [generate_mac_address] *)

Section GenerateMacAddress.

Context {W : Type} (os : ∀ c : call, W → result c * W).

Lemma generate_mac_address_run mac_addr_init w :
  length (bytes mac_addr_init) = 6%nat →
  ∃ r0 r1 r2 r3 r4 r5,
    trace (run os (generate_mac_address mac_addr_init) w) =
      [ existT lib_rand r0; existT lib_rand r1; existT lib_rand r2;
        existT lib_rand r3; existT lib_rand r4; existT lib_rand r5 ] ∧
    returned (run os (generate_mac_address mac_addr_init) w) =
      Some {| bytes :=
        [ uchar (Z.lor (Z.land (uchar (Z.rem r0 256)) 0xFE) 0x02);
          uchar (Z.rem r1 256); uchar (Z.rem r2 256); uchar (Z.rem r3 256);
          uchar (Z.rem r4 256); uchar (Z.rem r5 256) ] |}.
Proof.
  intros Hlen. destruct mac_addr_init as [l]. simpl in Hlen.
  do 7 (destruct l as [|? l]; try discriminate Hlen). clear Hlen.
  unfold generate_mac_address.
  cbn [generate_mac_address_loop bytes].
  repeat (step os;
          cbn [store length Nat.ltb Nat.leb list_insert insert load lookup
               list_lookup bind defined]).
  do 6 eexists. split; reflexivity.
Qed.

Lemma generate_mac_address_only_rand mac_addr_init w :
  Forall is_rand (trace (run os (generate_mac_address mac_addr_init) w)).
Proof.
  unfold generate_mac_address. cbn [generate_mac_address_loop].
  paths os; repeat (constructor; [exact I|]); constructor.
Qed.

Lemma filter_ioctl_rand request (tr : list event) :
  Forall is_rand tr → List.filter (is_ioctl request) tr = [].
Proof.
  induction 1 as [|e tr He _ IH]; [reflexivity|]. simpl. rewrite IH.
  destruct e as [[] ?]; try destruct He. reflexivity.
Qed.

Lemma controls_rand (tr : list event) :
  Forall is_rand tr → controls tr = [].
Proof.
  induction 1 as [|e tr He _ IH]; [reflexivity|]. unfold controls in *.
  simpl. rewrite IH. destruct e as [[] ?]; try destruct He. reflexivity.
Qed.

(** C3: whatever the random source gives, [generate_mac_address] returns
    six bytes of which the first has bit 1 (locally administered) set
    and bit 0 (multicast) clear, and every other bit of every byte is
    the bit of the random value drawn for that byte. *)
Theorem generate_mac_address_locally_administered_unicast
    (w : W) (mac_addr_init : MacAddress) :
  length (bytes mac_addr_init) = 6%nat →
  let o := run os (generate_mac_address mac_addr_init) w in
  ∃ mac,
    returned o = Some mac ∧
    length (bytes mac) = 6%nat ∧
    length (rand_values (trace o)) = 6%nat ∧
    Forall (λ b, 0 ≤ b < 256) (bytes mac) ∧
    (∀ b, bytes mac !! 0%nat = Some b →
          Z.testbit b 1 = true ∧ Z.testbit b 0 = false) ∧
    (∀ i b x k,
        bytes mac !! i = Some b → rand_values (trace o) !! i = Some x →
        0 ≤ k < 8 → ¬ (i = 0%nat ∧ k < 2) →
        Z.testbit b k = Z.testbit x k).
Proof.
  intros Hlen o. subst o.
  destruct (generate_mac_address_run mac_addr_init w Hlen)
    as (r0 & r1 & r2 & r3 & r4 & r5 & -> & ->).
  eexists. split; [reflexivity|]. cbn [bytes rand_values omap list_omap
    ev_rand]. rewrite !uchar_rem.
  split; [reflexivity|]. split; [reflexivity|]. split; [|split].
  - repeat constructor; try (apply Z.mod_pos_bound; lia);
      apply (first_byte_bits (_ mod 256)).
  - intros b [= <-]. pose proof (first_byte_bits (r0 mod 256)) as F.
    simpl in F. tauto.
  - intros i b x k Hb Hx Hk Hne. destruct i as [|i].
    + injection Hb as <-. injection Hx as <-.
      pose proof (first_byte_bits (r0 mod 256)) as (_ & _ & _ & F).
      rewrite F by lia. apply uchar_bits; lia.
    + do 5 (destruct i as [|i];
            [injection Hb as <-; injection Hx as <-; apply uchar_bits; lia|]).
      discriminate Hb.
Qed.

End GenerateMacAddress.

Lemma generate_mac_address_locally_administered_unicast_witness :
  length (bytes stack_mac) = 6%nat ∧
  ∃ mac,
    returned (run linux (generate_mac_address stack_mac) (host [])) =
      Some mac ∧
    ∀ b, bytes mac !! 0%nat = Some b →
         Z.testbit b 1 = true ∧ Z.testbit b 0 = false.
Proof.
  split; [reflexivity|].
  destruct (generate_mac_address_locally_administered_unicast
              linux (host []) stack_mac eq_refl)
    as (mac & Hret & _ & _ & _ & Hbits & _).
  exists mac. split; [exact Hret|exact Hbits].
Defined.

(** ** [change_mac_address], whatever the operating system does *)

Section ChangeMacAddress.

Context {W : Type} (os : ∀ c : call, W → result c * W).
Variables (interface_request_init : ifreq) (interface_name : string).
Variables (new_mac : MacAddress) (w : W).

(** The execution that returns true, written out. *)
Lemma change_mac_address_success :
  let o :=
    run os (change_mac_address interface_request_init interface_name new_mac)
      w in
  returned o = Some true →
  ∃ fd buf rg g rd d sa rc c ru u rclose,
    trace o =
      [ existT (sys_socket AF_INET SOCK_DGRAM IPPROTO_IP) fd;
        existT (sys_ioctl fd SIOCGIFFLAGS
                  (set_ifr_name buf interface_request_init)) (rg, g);
        existT (sys_ioctl fd SIOCSIFFLAGS
                  (set_ifr_flags (Z.land (ifr_flags g) (Z.lnot IFF_UP)) g))
               (rd, d);
        existT (sys_ioctl fd SIOCSIFHWADDR
                  (set_ifr_hwaddr_sa_data sa
                     (set_ifr_hwaddr_sa_family ARPHRD_ETHER d))) (rc, c);
        existT (sys_ioctl fd SIOCSIFFLAGS (set_ifr_flags (ifr_flags g) c))
               (ru, u);
        existT (sys_close fd) rclose ] ∧
    0 ≤ fd ∧ 0 ≤ rg ∧ 0 ≤ rd ∧ 0 ≤ rc ∧ 0 ≤ ru ∧
    until_nul buf = ifname interface_name ∧
    take 6 sa = take 6 (bytes new_mac).
Proof.
  intros o; subst o. unfold change_mac_address.
  paths os; intros Hret; try discriminate Hret.
  repeat match goal with
  | H : (_ <? 0) = false |- _ => apply Z.ltb_ge in H
  end.
  do 12 eexists. split; [reflexivity|].
  repeat (split; [assumption|]). split.
  - eapply target_name; eassumption.
  - eapply memcpy_take; eassumption.
Qed.

Lemma change_mac_address_at_most_once :
  let tr :=
    trace (run os
      (change_mac_address interface_request_init interface_name new_mac) w) in
  (length (List.filter (is_ioctl SIOCSIFHWADDR) tr) ≤ 1)%nat ∧
  rand_values tr = [].
Proof.
  intros tr; subst tr. unfold change_mac_address.
  paths os; split; cbn; try reflexivity; lia.
Qed.

(** C4, as the code has it: the requests are made in the order get
    flags, set flags, set hardware address, set flags; a request to set
    the hardware address comes after a flags request that clears
    [IFF_UP]; and a second flags request, the one that restores the
    flags, comes after the request to set the hardware address has been
    made and has returned, with or without success. *)
Theorem change_mac_address_order :
  let o :=
    run os (change_mac_address interface_request_init interface_name new_mac)
      w in
  ioctl_requests (trace o) `prefix_of`
    [SIOCGIFFLAGS; SIOCSIFFLAGS; SIOCSIFHWADDR; SIOCSIFFLAGS] ∧
  down_before_change (trace o) ∧
  up_after_change (λ _, true) (trace o).
Proof.
  intros o; subst o. unfold change_mac_address.
  paths os.
  all: split; [|split].
  all: lazymatch goal with
       | |- _ `prefix_of` _ =>
           cbn; first [ by exists [] | by eexists [_] | by eexists [_; _]
                      | by eexists [_; _; _] | by eexists [_; _; _; _] ]
       | |- down_before_change _ =>
           intros n1 e1 He Hq; nths He n1; try absurd_event;
           (exists 2%nat; eexists; split; [lia|]; split; [reflexivity|];
            split; [exact I|];
            unfold clears_IFF_UP; cbn [ev_flags ev_ioctl projT1];
            rewrite bring_down_clears; exact I)
       | |- up_after_change _ _ =>
           intros n1 e1 n2 e2 Hlt Hd Hqd He Hqe;
           nths Hd n1; try absurd_event; nths He n2; try absurd_event;
           try lia;
           (exists 3%nat; eexists; split; [lia|]; split; [reflexivity|];
            split; exact I)
       end.
Qed.

(** C5: when the request to set the hardware address fails, the
    function returns false, and between the failure and the return it
    does three things and no more: it reports the error, it makes one
    flags request that carries the flags [SIOCGIFFLAGS] had reported,
    and it closes the socket, whatever the flags request returned. *)
Theorem change_mac_address_recovery (i : nat) (e : event) :
  let o :=
    run os (change_mac_address interface_request_init interface_name new_mac)
      w in
  trace o !! i = Some e → is_ioctl SIOCSIFHWADDR e → failed e →
  returned o = Some false ∧
  ∃ g original_flags msg fd argp rc reply rclose,
    g ∈ take i (trace o) ∧ is_ioctl SIOCGIFFLAGS g ∧
    ifr_flags <$> ev_reply g = Some original_flags ∧
    drop (S i) (trace o) =
      [ existT (lib_perror "ioctl (SIOCSIFHWADDR)") msg;
        existT (sys_ioctl fd SIOCSIFFLAGS argp) (rc, reply);
        existT (sys_close fd) rclose ] ∧
    ifr_flags argp = original_flags.
Proof.
  intros o; subst o. unfold change_mac_address.
  paths os; intros He Hq Hf.
  all: nths He i; try absurd_event.
  split; [reflexivity|].
  match goal with r : result (sys_ioctl _ SIOCSIFFLAGS _) |- _ =>
    destruct r as [rc reply] end.
  do 8 eexists. split; [|split; [|split; [|split; [reflexivity|]]]].
  - cbn. apply elem_of_cons; right. apply elem_of_cons; left. reflexivity.
  - exact I.
  - reflexivity.
  - apply ifr_flags_restored.
Qed.

(** What an operating system that keeps the sizes says of each
    answer. *)
Ltac answered_in_place Hkeep :=
  repeat match goal with
  | H : ?os (sys_ioctl ?fd ?q ?a) ?w = (_, _, _) |- _ =>
      let K := fresh "K" in
      pose proof (Hkeep fd q a w) as K; rewrite H in K;
      unfold sized in K; fields_in K; revert H
  end; intros.

(** With a request structure of the C type, six bytes of address and an
    operating system that answers in place, no execution runs into
    undefined behaviour: the function returns. *)
Lemma change_mac_address_defined :
  sized interface_request_init → (6 ≤ length (bytes new_mac))%nat →
  keeps_sizes os →
  is_Some (returned (run os
    (change_mac_address interface_request_init interface_name new_mac) w)).
Proof.
  intros [Hname Hdata] Hmac Hkeep.
  destruct (name_array (ifr_name interface_request_init) interface_name
              Hname) as (l & Hl & Hbuf).
  pose proof (length_ifname interface_name) as Hn.
  unfold change_mac_address. rewrite Hl. cbn [bind defined]. rewrite Hbuf.
  paths os; eauto.
  answered_in_place Hkeep.
  match goal with H : memcpy ?dest ?src 6 = None |- _ =>
    destruct (memcpy_from_is_Some dest src 0 6) as [l' E];
      [|simpl; lia|unfold memcpy in H; congruence]
  end.
  repeat match goal with
  | K : _ → _ ∧ _ |- _ =>
      destruct K as [? ?];
        [split; [try assumption|congruence]|]
  end.
  - rewrite length_app, length_replicate. unfold IFNAMSIZ in *. lia.
  - simpl. lia.
Qed.

(** C6: [change_mac_address] returns true exactly when it has made its
    five control operations (socket, get flags, bring down, set hardware
    address, restore flags) and each succeeded, and returns false
    exactly when one of the control operations it made failed.  With a
    request structure of the C type it does return, so its result is
    true when all five succeeded and false when one failed, and one of
    the two is the case. *)
Theorem change_mac_address_result :
  let o :=
    run os (change_mac_address interface_request_init interface_name new_mac)
      w in
  (returned o = Some true ↔ all_five_succeed (trace o) = true) ∧
  (returned o = Some false ↔ one_fails (trace o) = true) ∧
  (sized interface_request_init → (6 ≤ length (bytes new_mac))%nat →
   keeps_sizes os →
   returned o = Some (all_five_succeed (trace o)) ∧
   one_fails (trace o) = negb (all_five_succeed (trace o))).
Proof.
  intros o.
  assert ((returned o = Some true ↔ all_five_succeed (trace o) = true) ∧
          (returned o = Some false ↔ one_fails (trace o) = true))
    as [Htrue Hfalse].
  { subst o. unfold change_mac_address.
    paths os.
    all: unfold all_five_succeed, one_fails, controls; cbn.
    all: repeat match goal with
         | H : (_ <? _) = _ |- _ => rewrite ?H; clear H
         end; cbn.
    all: split; split; congruence. }
  split; [exact Htrue|]. split; [exact Hfalse|].
  intros Hsized Hmac Hkeep.
  destruct (change_mac_address_defined Hsized Hmac Hkeep) as [b Hb].
  fold o in Hb. rewrite Hb.
  destruct b.
  - rewrite (proj1 Htrue Hb). split; [reflexivity|].
    destruct (one_fails (trace o)); [|reflexivity].
    pose proof (proj2 Hfalse eq_refl). congruence.
  - rewrite (proj1 Hfalse Hb).
    destruct (all_five_succeed (trace o)); [|split; reflexivity].
    pose proof (proj2 Htrue eq_refl). congruence.
Qed.

(** The name in the requests, when the kernel leaves it alone. *)
Lemma change_mac_address_request_names :
  length (ifr_name interface_request_init) = IFNAMSIZ → keeps_name os →
  ∀ e request argp,
    e ∈ trace (run os
      (change_mac_address interface_request_init interface_name new_mac) w) →
    ev_ioctl e = Some (request, argp) →
    ifr_name argp =
      ifname interface_name
        ++ replicate (IFNAMSIZ - length (ifname interface_name)) 0.
Proof.
  intros Hlen Hkeep.
  destruct (name_array (ifr_name interface_request_init) interface_name Hlen)
    as (l & Hl & Hbuf).
  unfold change_mac_address. rewrite Hl. cbn [bind defined]. rewrite Hbuf.
  paths os; intros e request argp He Hq.
  all: kept Hkeep.
  all: elems He; try discriminate Hq.
  all: injection Hq as <- <-; fields; congruence.
Qed.

(** Once the socket is there, the function writes the name and goes on
    to ask for the flags: the second event of the execution is that
    request, with the name array as the two writes leave it. *)
Lemma change_mac_address_past_the_name :
  length (ifr_name interface_request_init) = IFNAMSIZ →
  let o :=
    run os (change_mac_address interface_request_init interface_name new_mac)
      w in
  ∃ fd,
    trace o !! 0%nat =
      Some (existT (sys_socket AF_INET SOCK_DGRAM IPPROTO_IP) fd) ∧
    (0 ≤ fd →
     ∃ r, trace o !! 1%nat =
       Some (existT (sys_ioctl fd SIOCGIFFLAGS
               (set_ifr_name
                  (ifname interface_name
                     ++ replicate (IFNAMSIZ - length (ifname interface_name))
                          0)
                  interface_request_init)) r)).
Proof.
  intros Hlen.
  destruct (name_array (ifr_name interface_request_init) interface_name Hlen)
    as (l & Hl & Hbuf).
  unfold change_mac_address. rewrite Hl. cbn [bind defined]. rewrite Hbuf.
  paths os.
  all: eexists; split; [reflexivity|]; intros Hfd.
  all: try (match goal with H : (?x <? 0) = true |- _ =>
              apply Z.ltb_lt in H; lia end).
  all: eexists; reflexivity.
Qed.

(** C8: whatever the length of the name, the two writes to [ifr_name]
    stay inside the array, so that the function, once it has its
    socket, goes on to its first request; the array then holds at most
    [IFNAMSIZ - 1] bytes of the name followed by null bytes up to its
    end, the last byte among them; this is the array the first request
    hands to the kernel, and the name in every request the kernel gets,
    as long as the kernel leaves the name alone. *)
Theorem change_mac_address_name_terminated :
  length (ifr_name interface_request_init) = IFNAMSIZ → keeps_name os →
  let o :=
    run os (change_mac_address interface_request_init interface_name new_mac)
      w in
  ∃ buf,
    strncpy (ifr_name interface_request_init) (c_str interface_name)
        (IFNAMSIZ - 1)
      ≫= (λ l, store l (IFNAMSIZ - 1) 0) = Some buf ∧
    length buf = IFNAMSIZ ∧
    (length (ifname interface_name) ≤ IFNAMSIZ - 1)%nat ∧
    buf = ifname interface_name
            ++ replicate (IFNAMSIZ - length (ifname interface_name)) 0 ∧
    until_nul buf = ifname interface_name ∧
    (∀ e request argp,
      e ∈ trace o → ev_ioctl e = Some (request, argp) → ifr_name argp = buf) ∧
    buf !! (IFNAMSIZ - 1)%nat = Some 0 ∧
    ∃ fd,
      trace o !! 0%nat =
        Some (existT (sys_socket AF_INET SOCK_DGRAM IPPROTO_IP) fd) ∧
      (0 ≤ fd →
       ∃ r, trace o !! 1%nat =
         Some (existT (sys_ioctl fd SIOCGIFFLAGS
                 (set_ifr_name buf interface_request_init)) r)).
Proof.
  intros Hlen Hkeep o.
  destruct (name_array (ifr_name interface_request_init) interface_name Hlen)
    as (l & Hl & Hbuf).
  pose proof (length_ifname interface_name) as Hn.
  eexists. split; [rewrite Hl; exact Hbuf|].
  split; [|split; [exact Hn|split; [reflexivity|split; [|split; [|split]]]]].
  - rewrite length_app, length_replicate. unfold IFNAMSIZ in *. lia.
  - eapply target_name; eassumption.
  - exact (change_mac_address_request_names Hlen Hkeep).
  - rewrite lookup_app_r by (unfold IFNAMSIZ in *; lia).
    apply lookup_replicate_2. unfold IFNAMSIZ in *. lia.
  - exact (change_mac_address_past_the_name Hlen).
Qed.

(** C9: on every path on which the function returns and the socket was
    created, the function closes one descriptor and no more, the
    descriptor of the socket, and the close is the last thing it does. *)
Theorem change_mac_address_closes_socket (b : bool) (e : event) (fd : Z) :
  let o :=
    run os (change_mac_address interface_request_init interface_name new_mac)
      w in
  returned o = Some b →
  e ∈ trace o → is_socket e → ev_ret e = Some fd → 0 ≤ fd →
  closed (trace o) = [fd] ∧ last (trace o) ≫= ev_close = Some fd.
Proof.
  intros o; subst o. unfold change_mac_address.
  paths os; intros Hret He Hs Hfd Hpos; try discriminate Hret.
  all: elems He; try (destruct Hs; fail).
  all: injection Hfd as ->.
  all: try (match goal with H : (?x <? 0) = true, H' : 0 ≤ ?x |- _ =>
              apply Z.ltb_lt in H; lia end).
  all: split; reflexivity.
Qed.

End ChangeMacAddress.

(** ** [main], whatever the operating system does *)

Section Main.

Context {W : Type} (os : ∀ c : call, W → result c * W).
Variables (mac_addr_init : MacAddress) (interface_request_init : ifreq).
Variables (argv : list string) (w : W).

(** With an argument, [main] is four executions in a row. *)
Lemma run_main argv_1 :
  argv !! 1%nat = Some argv_1 →
  run os (main mac_addr_init interface_request_init argv) w =
  and_then (run os (bind getpid srand) w) (λ _ w,
  and_then (run os (generate_mac_address mac_addr_init) w) (λ new_mac w,
  and_then (run os (change_mac_address interface_request_init argv_1 new_mac)
              w) (λ ok w,
  run os (report ok new_mac) w))).
Proof.
  intros Hargv. unfold main. rewrite Hargv.
  pose proof (lookup_lt_Some _ _ _ Hargv) as Hlen.
  destruct (Z.ltb_spec (Z.of_nat (length argv)) 2) as [Hlt|_]; [lia|].
  lazymatch goal with |- _ = ?rhs =>
    change (run os
      (bind (bind getpid srand) (λ _,
       bind (generate_mac_address mac_addr_init) (λ new_mac,
       bind (change_mac_address interface_request_init argv_1 new_mac) (λ ok,
       report ok new_mac)))) w = rhs)
  end.
  rewrite run_bind. apply and_then_ext; intros _ w1.
  rewrite run_bind. apply and_then_ext; intros new_mac w2.
  rewrite run_bind. reflexivity.
Qed.

Lemma run_prelude :
  let o0 := run os (bind getpid srand) w in
  returned o0 = Some tt ∧ controls (trace o0) = [] ∧
  rand_values (trace o0) = [] ∧
  Forall (λ e, ev_ioctl e = None) (trace o0).
Proof.
  intros o0; subst o0. paths os.
  match goal with |- Some ?u = _ ∧ _ => destruct u end.
  repeat split. repeat constructor.
Qed.

Lemma run_report ok new_mac w' :
  let o := run os (report ok new_mac) w' in
  returned o = Some (if ok then EXIT_SUCCESS else EXIT_FAILURE) ∧
  trace o =
    [ existT (lib_fprintf (if ok then stdout else stderr)
                (if ok then report_new_mac new_mac else report_failure)) tt ].
Proof.
  intros o; subst o. unfold report.
  destruct ok; paths os;
    match goal with |- context [existT _ ?u] => destruct u end;
    split; reflexivity.
Qed.

(** C7: one invocation asks for at most one change of a hardware
    address.  When there is an argument, [main] seeds the generator,
    generates one address from six random values, runs
    [change_mac_address] once, on [argv[1]] and that address, and
    reports; every control operation of the invocation is one of that
    run, every request names the interface of [argv[1]], and nothing
    follows the report. *)
Theorem main_changes_once :
  let o := run os (main mac_addr_init interface_request_init argv) w in
  (length (List.filter (is_ioctl SIOCSIFHWADDR) (trace o)) ≤ 1)%nat ∧
  ∀ argv_1,
    length (bytes mac_addr_init) = 6%nat → argv !! 1%nat = Some argv_1 →
    let o0 := run os (bind getpid srand) w in
    let og := run os (generate_mac_address mac_addr_init) (final o0) in
    ∃ new_mac,
      returned og = Some new_mac ∧
      let oc :=
        run os (change_mac_address interface_request_init argv_1 new_mac)
          (final og) in
      ∃ rep,
        trace o = trace o0 ++ trace og ++ trace oc ++ rep ∧
        Forall is_fprintf rep ∧ (length rep ≤ 1)%nat ∧
        controls (trace o) = controls (trace oc) ∧
        length (rand_values (trace o)) = 6%nat ∧
        (length (ifr_name interface_request_init) = IFNAMSIZ →
         keeps_name os →
         ∀ e request argp,
           e ∈ trace o → ev_ioctl e = Some (request, argp) →
           until_nul (ifr_name argp) = ifname argv_1).
Proof.
  intros o. split.
  - subst o. unfold main. destruct (_ <? 2).
    + paths os. cbn. lia.
    + step os. step os. cbn [after trace]. rewrite run_bind, trace_and_then.
      cbn [List.filter is_ioctl ev_ioctl projT1].
      rewrite List.filter_app, length_app.
      rewrite (filter_ioctl_rand _ _ (generate_mac_address_only_rand os _ _)).
      destruct (returned _) as [new_mac|]; [|cbn; lia].
      destruct (argv !! 1%nat) as [argv_1|]; [|cbn; lia].
      cbn [defined bind]. rewrite run_bind, trace_and_then.
      rewrite List.filter_app, length_app.
      match goal with |- context [trace ?oc] =>
        lazymatch oc with run os (change_mac_address ?a ?b ?c) ?d =>
          pose proof (change_mac_address_at_most_once os a b c d) as [H _];
          set (o := oc) in *
        end
      end.
      destruct (returned o) as [ok|]; [|cbn [List.filter length]; lia].
      destruct (run_report ok new_mac (final o)) as [_ ->].
      cbn [List.filter is_ioctl ev_ioctl projT1 length]. lia.
  - intros argv_1 Hlen Hargv o0 og. subst o.
    destruct (generate_mac_address_run os mac_addr_init (final o0) Hlen)
      as (r0 & r1 & r2 & r3 & r4 & r5 & Htr & Hret).
    fold og in Htr, Hret.
    match type of Hret with _ = Some ?m => set (new_mac := m) in * end.
    exists new_mac. split; [exact Hret|]. intros oc.
    destruct run_prelude as (H0 & Hc0 & Hr0 & Hi0).
    fold o0 in H0, Hc0, Hr0, Hi0.
    destruct (change_mac_address_at_most_once os interface_request_init
                argv_1 new_mac (final og)) as [_ Hrc]. fold oc in Hrc.
    set (rep := match returned oc with
                | Some ok => trace (run os (report ok new_mac) (final oc))
                | None => []
                end).
    assert (Forall is_fprintf rep ∧ (length rep ≤ 1)%nat ∧
            controls rep = [] ∧ rand_values rep = []) as (Hf & Hl & Hc & Hr).
    { subst rep. destruct (returned oc) as [ok|];
        [|repeat split; [constructor|simpl; lia]].
      destruct (run_report ok new_mac (final oc)) as [_ ->].
      destruct ok; repeat split; try (repeat constructor); simpl; lia. }
    exists rep.
    rewrite (run_main _ Hargv), trace_and_then. fold o0.
    rewrite H0, trace_and_then. fold og.
    rewrite Hret, trace_and_then. fold oc. fold rep.
    split; [reflexivity|]. split; [exact Hf|]. split; [exact Hl|]. split.
    + pose proof (controls_rand _
        (generate_mac_address_only_rand os mac_addr_init (final o0))) as Hcg.
      fold og in Hcg. unfold controls in *.
      rewrite !List.filter_app, Hc0, Hc, Hcg. simpl. apply app_nil_r.
    + split.
      * unfold rand_values in *. rewrite !omap_app, Hr0, Hrc, Hr, Htr.
        reflexivity.
      * intros Hname Hkeep e request argp He Hq.
        apply elem_of_app in He as [He|He].
        { rewrite Forall_forall in Hi0. rewrite (Hi0 e He) in Hq.
          discriminate Hq. }
        apply elem_of_app in He as [He|He].
        { pose proof (generate_mac_address_only_rand os mac_addr_init
                        (final o0)) as Hg.
          rewrite Forall_forall in Hg. specialize (Hg e He).
          destruct e as [[] ?]; try destruct Hg. discriminate Hq. }
        apply elem_of_app in He as [He|He].
        { rewrite (change_mac_address_request_names os _ _ _ _ Hname Hkeep
                     e request argp He Hq).
          apply until_nul_padded. }
        rewrite Forall_forall in Hf. specialize (Hf e He).
        destruct e as [[] ?]; try destruct Hf. discriminate Hq.
Qed.


End Main.

(** ** The kernel model *)

Lemma next_fault_dev k : k_dev (next_fault k).2 = k_dev k.
Proof. unfold next_fault. destruct (k_faults k); reflexivity. Qed.

Lemma linux_ioctl_failed request argp k rc argp' k' :
  linux_ioctl request argp k = (rc, argp', k') → rc < 0 →
  argp' = argp ∧ k_dev k' = k_dev k.
Proof.
  unfold linux_ioctl. pose proof (next_fault_dev k) as Hd.
  destruct (next_fault k) as [refused k1]. simpl in Hd. rewrite Hd.
  destruct refused; [intros [= <- <- <-]; auto|].
  destruct (k_dev k !! _) as [d|]; [|intros [= <- <- <-]; auto].
  repeat (case_match; try (intros [= <- <- <-]; intros; first [lia|auto])).
Qed.

Lemma linux_ioctl_succeeded request argp k rc argp' k' :
  linux_ioctl request argp k = (rc, argp', k') → (rc <? 0) = false →
  let n := until_nul (ifr_name argp) in
  ∃ d, k_dev k !! n = Some d ∧
    ((request = SIOCGIFFLAGS ∧ argp' = set_ifr_flags (dev_flags d) argp ∧
      k_dev k' = k_dev k) ∨
     (request = SIOCSIFFLAGS ∧ argp' = argp ∧
      k_dev k' = <[n := {| dev_flags := ifr_flags argp;
                           dev_addr := dev_addr d |}]> (k_dev k)) ∨
     (request = SIOCSIFHWADDR ∧ argp' = argp ∧
      k_dev k' = <[n := {| dev_flags := dev_flags d;
                           dev_addr := take 6 (ifr_hwaddr_sa_data argp) |}]>
                   (k_dev k))).
Proof.
  unfold linux_ioctl. pose proof (next_fault_dev k) as Hd.
  destruct (next_fault k) as [refused k1]. simpl in Hd. rewrite Hd.
  intros H Hrc.
  destruct refused; [injection H as <- <- <-; discriminate Hrc|].
  destruct (k_dev k !! _) as [d|];
    [|injection H as <- <- <-; discriminate Hrc].
  exists d. split; [reflexivity|].
  destruct (Z.eqb_spec request SIOCGIFFLAGS) as [->|_].
  { injection H as <- <- <-. left. auto. }
  destruct (Z.eqb_spec request SIOCSIFFLAGS) as [->|_].
  { injection H as <- <- <-. right; left. simpl. rewrite Hd. auto. }
  destruct (Z.eqb_spec request SIOCSIFHWADDR) as [->|_].
  { destruct (_ =? ARPHRD_ETHER); injection H as <- <- <-;
      [|discriminate Hrc]. right; right. simpl. rewrite Hd. auto. }
  injection H as <- <- <-; discriminate Hrc.
Qed.

Lemma linux_other_dev (c : call) k :
  (∀ fd request argp, c ≠ sys_ioctl fd request argp) →
  k_dev (linux c k).2 = k_dev k.
Proof.
  intros Hc. destruct c; simpl; try reflexivity.
  - pose proof (next_fault_dev k) as Hd.
    destruct (next_fault k) as [[] k1]; simpl in *; exact Hd.
  - destruct (Hc fd request argp eq_refl).
Qed.

Lemma linux_keeps_name : keeps_name linux.
Proof.
  intros fd request argp k. cbn [linux]. unfold linux_ioctl.
  destruct (next_fault k) as [[] k1]; [reflexivity|].
  destruct (k_dev k1 !! _); [|reflexivity].
  repeat case_match; reflexivity.
Qed.

Lemma linux_keeps_sizes : keeps_sizes linux.
Proof.
  intros fd request argp k Hs. cbn [linux]. unfold linux_ioctl.
  destruct (next_fault k) as [[] k1]; [exact Hs|].
  destruct (k_dev k1 !! _); [|exact Hs].
  repeat case_match; exact Hs.
Qed.

(** What the kernel did in each step of an execution. *)
Ltac kernel_steps :=
  repeat match goal with
  | H : linux (sys_ioctl _ ?q ?a) ?k = (?rc, _, _), E : (?rc <? 0) = false
    |- _ =>
      apply (linux_ioctl_succeeded q a k) in H; [|exact E];
      destruct H as (? & ? & [(? & ? & ?)|[(? & ? & ?)|(? & ? & ?)]]);
      try discriminate
  | H : linux (sys_ioctl _ ?q ?a) ?k = (?rc, _, _), E : (?rc <? 0) = true
    |- _ =>
      apply (linux_ioctl_failed q a k) in H; [|apply Z.ltb_lt; exact E];
      destruct H as [? ?]
  | H : linux ?c ?k = (_, ?k') |- _ =>
      let D := fresh "D" in
      assert (k_dev k' = k_dev k) as D
        by (rewrite <- (linux_other_dev c k) by discriminate;
            rewrite H; reflexivity);
      clear H
  end.

(** Write every device table through the one of the initial state. *)
Ltac devices :=
  repeat match goal with
  | H : k_dev ?w = _ |- _ => is_var w; rewrite !H in *; clear H
  end.

(** ** [change_mac_address] on the kernel model *)

Section OnLinux.

Variables (k : kernel) (interface_request_init : ifreq).
Variables (interface_name : string) (new_mac : MacAddress).

(** With arrays of the sizes the C types give them, no execution runs
    into undefined behaviour: the function returns. *)
Lemma change_mac_address_returns :
  length (ifr_name interface_request_init) = IFNAMSIZ →
  (6 ≤ length (ifr_hwaddr_sa_data interface_request_init))%nat →
  (6 ≤ length (bytes new_mac))%nat →
  is_Some (returned (run linux
    (change_mac_address interface_request_init interface_name new_mac) k)).
Proof.
  intros Hname Hdata Hmac. unfold change_mac_address.
  paths linux; eauto.
  - kernel_steps. subst. fields_all.
    destruct (memcpy_from_is_Some (ifr_hwaddr_sa_data interface_request_init)
                (bytes new_mac) 0 6) as [l' E]; [simpl; lia..|].
    unfold memcpy in *. congruence.
  - match goal with
    | Hl : strncpy _ _ _ = Some ?l, Hs : store ?l _ _ = None |- _ =>
        unfold strncpy in Hl; apply strncpy_copy_Some in Hl;
        destruct (store_is_Some l (IFNAMSIZ - 1) 0) as [b E];
          [|congruence];
        subst l; rewrite length_blit;
          [rewrite Hname|
           rewrite length_app, length_take, length_replicate, Hname];
          unfold IFNAMSIZ; lia
    end.
  - destruct (strncpy_copy_is_Some (ifr_name interface_request_init)
                (c_str interface_name) 0 (IFNAMSIZ - 1)) as [l' E];
      [rewrite Hname; unfold IFNAMSIZ; lia|].
    unfold strncpy in *. congruence.
Qed.

(** C2: when [change_mac_address] returns true, the interface named by
    the argument has the first six bytes of [new_mac.bytes] as its
    hardware address and has the flags it had before the call. *)
Theorem change_mac_address_sets_address :
  let o :=
    run linux
      (change_mac_address interface_request_init interface_name new_mac) k in
  returned o = Some true →
  ∃ f, if_flags k (ifname interface_name) = Some f ∧
       if_flags (final o) (ifname interface_name) = Some f ∧
       if_hwaddr (final o) (ifname interface_name) =
         Some (take 6 (bytes new_mac)).
Proof.
  intros o; subst o. unfold change_mac_address.
  paths linux; intros Hret; try discriminate Hret.
  kernel_steps. subst. fields_all.
  match goal with
  | Hl : strncpy _ _ _ = Some _, Hs : store _ _ _ = Some _ |- _ =>
      rewrite (target_name _ _ _ _ Hl Hs) in *
  end.
  devices. unfold if_flags, if_hwaddr. simplify_map_eq.
  repeat match goal with H : k_dev _ = _ |- _ => rewrite H end.
  rewrite lookup_insert_eq.
  cbn [fmap option_fmap option_map dev_flags dev_addr].
  rewrite ifr_flags_restored. unfold ifr_flags at 1. fields.
  rewrite sshort_ushort, !sshort_sshort.
  match goal with H : memcpy _ _ _ = Some _ |- _ =>
    rewrite (memcpy_take _ _ _ H) end.
  eexists. repeat split.
Qed.


End OnLinux.

(** ** Executions on the sample state *)

(** C4, as the specification words it, fails: when the kernel refuses
    the request to set the hardware address, the flags are restored all
    the same, after a request that did not succeed. *)
Lemma change_mac_address_restores_after_failed_change :
  ¬ down_change_up_strict
      (trace (run linux (change_mac_address stack_ifreq "eth0" sample_mac)
                (host [false; false; false; true]))).
Proof.
  intros [_ H].
  destruct (H 2%nat _ 5%nat _ ltac:(lia) eq_refl I eq_refl I)
    as (m & c & Hm & Hc & Hq & Hs).
  assert (m = 3%nat ∨ m = 4%nat) as [-> | ->] by lia.
  - injection Hc as <-. exact Hs.
  - injection Hc as <-. exact Hq.
Qed.



Lemma change_mac_address_sets_address_witness :
  let o :=
    run linux (change_mac_address stack_ifreq "eth0" sample_mac) (host []) in
  returned o = Some true ∧
  ∃ f, if_flags (host []) (ifname "eth0") = Some f ∧
       if_flags (final o) (ifname "eth0") = Some f ∧
       if_hwaddr (final o) (ifname "eth0") = Some (take 6 (bytes sample_mac)).
Proof.
  intros o. split; [reflexivity|].
  apply (change_mac_address_sets_address (host []) stack_ifreq "eth0"
           sample_mac).
  reflexivity.
Defined.

Lemma change_mac_address_recovery_witness :
  let o :=
    run linux (change_mac_address stack_ifreq "eth0" sample_mac)
      (host [false; false; false; true]) in
  ∃ e, trace o !! 3%nat = Some e ∧ is_ioctl SIOCSIFHWADDR e ∧ failed e ∧
       returned o = Some false.
Proof.
  intros o. eexists. split; [reflexivity|].
  split; [exact I|]. split; [exact I|].
  exact (proj1 (change_mac_address_recovery linux stack_ifreq "eth0"
                  sample_mac (host [false; false; false; true]) 3 _
                  eq_refl I I)).
Defined.

Lemma change_mac_address_result_witness :
  sized stack_ifreq ∧ (6 ≤ length (bytes sample_mac))%nat ∧
  keeps_sizes linux ∧
  returned (run linux (change_mac_address stack_ifreq "eth0" sample_mac)
              (host [])) = Some true ∧
  returned (run linux (change_mac_address stack_ifreq "eth0" sample_mac)
              (host [false; false; true])) = Some false.
Proof.
  assert (sized stack_ifreq) as Hsized by (split; reflexivity).
  assert (6 ≤ length (bytes sample_mac))%nat as Hmac by (simpl; lia).
  split; [exact Hsized|]. split; [exact Hmac|].
  split; [exact linux_keeps_sizes|]. split.
  - exact (proj1 (proj2 (proj2 (change_mac_address_result linux stack_ifreq
                                  "eth0" sample_mac (host [])))
                    Hsized Hmac linux_keeps_sizes)).
  - exact (proj1 (proj2 (proj2 (change_mac_address_result linux stack_ifreq
                                  "eth0" sample_mac
                                  (host [false; false; true])))
                    Hsized Hmac linux_keeps_sizes)).
Defined.

Lemma change_mac_address_name_terminated_witness :
  let o :=
    run linux
      (change_mac_address stack_ifreq "a_very_long_interface_name"
         sample_mac) (host []) in
  length (ifr_name stack_ifreq) = IFNAMSIZ ∧ keeps_name linux ∧
  ∃ buf,
    length buf = IFNAMSIZ ∧
    until_nul buf = ifname "a_very_long_interface_name" ∧
    buf !! 15%nat = Some 0 ∧
    (∃ fd r,
       0 ≤ fd ∧
       trace o !! 1%nat =
         Some (existT (sys_ioctl fd SIOCGIFFLAGS
                 (set_ifr_name buf stack_ifreq)) r)) ∧
    ∀ e request argp,
      e ∈ trace o → ev_ioctl e = Some (request, argp) → ifr_name argp = buf.
Proof.
  intros o. split; [reflexivity|]. split; [exact linux_keeps_name|].
  destruct (change_mac_address_name_terminated linux stack_ifreq
              "a_very_long_interface_name" sample_mac (host [])
              eq_refl linux_keeps_name)
    as (buf & _ & Hlen & _ & _ & Hnul & Hreq & Hlast & fd & Hsock & Hnext).
  pose proof (f_equal (λ x, x ≫= ev_ret) Hsock) as Hfd.
  vm_compute in Hfd. injection Hfd as Hfd. subst fd.
  destruct (Hnext ltac:(lia)) as [r Hr].
  exists buf. split; [exact Hlen|]. split; [exact Hnul|].
  split; [exact Hlast|]. split; [|exact Hreq].
  exists 3, r. split; [lia|exact Hr].
Defined.

Lemma change_mac_address_closes_socket_witness :
  let o :=
    run linux (change_mac_address stack_ifreq "eth0" sample_mac)
      (host [false; true]) in
  returned o = Some false ∧
  closed (trace o) = [3] ∧ last (trace o) ≫= ev_close = Some 3.
Proof.
  intros o. split; [reflexivity|].
  apply (change_mac_address_closes_socket linux stack_ifreq "eth0"
           sample_mac (host [false; true]) false
           (existT (sys_socket AF_INET SOCK_DGRAM IPPROTO_IP) 3) 3).
  - reflexivity.
  - apply elem_of_cons. left. reflexivity.
  - exact I.
  - reflexivity.
  - lia.
Defined.

Lemma main_changes_once_witness :
  let o := run linux (main stack_mac stack_ifreq sample_argv) (host []) in
  length (bytes stack_mac) = 6%nat ∧
  sample_argv !! 1%nat = Some "eth0"%string ∧
  length (ifr_name stack_ifreq) = IFNAMSIZ ∧ keeps_name linux ∧
  length (rand_values (trace o)) = 6%nat ∧
  ∀ e request argp,
    e ∈ trace o → ev_ioctl e = Some (request, argp) →
    until_nul (ifr_name argp) = ifname "eth0".
Proof.
  intros o. split; [reflexivity|]. split; [reflexivity|].
  split; [reflexivity|]. split; [exact linux_keeps_name|].
  destruct (proj2 (main_changes_once linux stack_mac stack_ifreq sample_argv
                     (host [])) "eth0"%string eq_refl eq_refl)
    as (new_mac & _ & rep & _ & _ & _ & _ & Hrand & Hnames).
  split; [exact Hrand|exact (Hnames eq_refl linux_keeps_name)].
Defined.


(** ** More of [change_mac_address], whatever the operating system does *)

(** [memcpy] of six bytes leaves the bytes after the sixth alone. *)
Lemma memcpy_drop dest src l :
  memcpy dest src 6 = Some l → drop 6 l = drop 6 dest ∧ (6 ≤ length src)%nat.
Proof.
  unfold memcpy. intros H. apply memcpy_from_Some in H as [-> Hlen].
  specialize (Hlen ltac:(lia)). split; [|lia]. unfold blit.
  assert (length (take 6 src) = 6%nat) as E by (rewrite length_take; lia).
  rewrite take_0, drop_0, E. simpl "++".
  rewrite drop_app_length' by (symmetry; exact E). reflexivity.
Qed.

Section ChangeMacAddressPaths.

Context {W : Type} (os : ∀ c : call, W → result c * W).
Variables (interface_request_init : ifreq) (interface_name : string).
Variables (new_mac : MacAddress) (w : W).

(** X1: when [socket], the request for the flags or a request to set
    the flags fails, [change_mac_address] gives up at once: it returns
    false and makes no further [socket] or [ioctl] call (a failed
    request to set the hardware address is the one followed by another
    request). *)
Theorem change_mac_address_stops_at_failure (i : nat) (e : event) :
  let o :=
    run os (change_mac_address interface_request_init interface_name new_mac)
      w in
  trace o !! i = Some e → is_control e → failed e →
  ¬ is_ioctl SIOCSIFHWADDR e →
  returned o = Some false ∧ controls (drop (S i) (trace o)) = [].
Proof.
  intros o; subst o. unfold change_mac_address.
  paths os; intros He Hc Hf Hn.
  all: nths He i; try absurd_event; try (destruct Hc; fail).
  all: try (exfalso; apply Hn; exact I).
  all: split; reflexivity.
Qed.

(** X2: [change_mac_address] calls [perror] only right after a
    [socket] or [ioctl] call that failed.  An execution that returns
    true reports nothing; one that returns false reports exactly one
    error, with one of the five texts of the source. *)
Theorem change_mac_address_diagnostics :
  let o :=
    run os (change_mac_address interface_request_init interface_name new_mac)
      w in
  (returned o = Some true → perror_messages (trace o) = []) ∧
  (returned o = Some false →
     ∃ m, perror_messages (trace o) = [m] ∧ m ∈ diagnostics) ∧
  (∀ i e m, trace o !! i = Some e → ev_perror e = Some m →
     ∃ j c, i = S j ∧ trace o !! j = Some c ∧ is_control c ∧ failed c).
Proof.
  intros o; subst o. unfold change_mac_address.
  paths os.
  all: split; [intros Hret; try discriminate Hret; reflexivity|].
  all: split; [intros Hret; try discriminate Hret;
               (eexists; split; [reflexivity|]; unfold diagnostics;
                repeat first [ apply list_elem_of_here
                             | apply list_elem_of_further ]) |].
  all: intros n1 e1 m1 He Hm; nths He n1; try discriminate Hm.
  all: eexists; eexists; split; [reflexivity|]; split; [reflexivity|].
  all: split; [exact I|]; unfold failed; cbn;
       repeat match goal with H : (_ <? 0) = _ |- _ => rewrite H end;
       exact I.
Qed.

(** X3: [change_mac_address] opens exactly one socket, an [AF_INET]
    datagram socket, as its first call, and every [ioctl] and [close] it
    makes is on the descriptor that call returned, which is then not
    negative. *)
Theorem change_mac_address_descriptor :
  let o :=
    run os (change_mac_address interface_request_init interface_name new_mac)
      w in
  ∃ fd,
    head (trace o) =
      Some (existT (sys_socket AF_INET SOCK_DGRAM IPPROTO_IP) fd) ∧
    length (List.filter is_socket (trace o)) = 1%nat ∧
    ∀ e fd', e ∈ trace o → ev_fd e = Some fd' → fd' = fd ∧ 0 ≤ fd.
Proof.
  intros o; subst o. unfold change_mac_address.
  paths os.
  all: eexists; split; [reflexivity|]; split; [reflexivity|].
  all: intros e1 fd1 He Hfd; elems He; try discriminate Hfd.
  all: injection Hfd as <-; split; [reflexivity|].
  all: match goal with H : (?x <? 0) = false |- 0 ≤ ?x =>
         apply Z.ltb_ge in H; exact H end.
Qed.

(** X4: the request to set the hardware address carries the family
    [ARPHRD_ETHER] and, in the first six bytes of [sa_data], the six
    bytes of [new_mac]; it is made only after the bring-down has
    succeeded, and the name and the rest of [sa_data] are those the
    bring-down request came back with. *)
Theorem change_mac_address_hwaddr_request (e : event) (argp : ifreq) :
  let o :=
    run os (change_mac_address interface_request_init interface_name new_mac)
      w in
  e ∈ trace o → ev_ioctl e = Some (SIOCSIFHWADDR, argp) →
  ifr_hwaddr_sa_family argp = ARPHRD_ETHER ∧
  take 6 (ifr_hwaddr_sa_data argp) = take 6 (bytes new_mac) ∧
  (6 ≤ length (bytes new_mac))%nat ∧
  ∃ d left,
    List.filter (is_ioctl SIOCSIFFLAGS) (trace o) !! 0%nat = Some d ∧
    succeeded d ∧ ev_reply d = Some left ∧
    ifr_name argp = ifr_name left ∧
    drop 6 (ifr_hwaddr_sa_data argp) = drop 6 (ifr_hwaddr_sa_data left).
Proof.
  intros o; subst o. unfold change_mac_address.
  paths os; intros He Hq.
  all: elems He; try discriminate Hq.
  all: injection Hq as <-.
  all: match goal with H : memcpy _ _ _ = Some _ |- _ =>
         pose proof (memcpy_take _ _ _ H) as Ht;
         pose proof (memcpy_drop _ _ _ H) as [Hd Hl] end.
  all: split; [reflexivity|]; split; [exact Ht|]; split; [exact Hl|].
  all: eexists; eexists; split; [reflexivity|].
  all: split;
       [unfold succeeded; cbn;
        repeat match goal with H : (_ <? 0) = _ |- _ => rewrite H end;
        exact I|].
  all: split; [reflexivity|]; split; [reflexivity|].
  all: exact Hd.
Qed.

(** X5: the first request to set the flags is made only after the
    flags have been read with success, and it carries the flags read
    with [IFF_UP] cleared and every other bit unchanged; the name and
    the rest of the structure are as [SIOCGIFFLAGS] left them. *)
Theorem change_mac_address_bring_down_request (d : event) :
  let o :=
    run os (change_mac_address interface_request_init interface_name new_mac)
      w in
  List.filter (is_ioctl SIOCSIFFLAGS) (trace o) !! 0%nat = Some d →
  ∃ g got argp,
    g ∈ trace o ∧ is_ioctl SIOCGIFFLAGS g ∧ succeeded g ∧
    ev_reply g = Some got ∧ ev_ioctl d = Some (SIOCSIFFLAGS, argp) ∧
    ifr_flags argp = Z.land (ifr_flags got) (Z.lnot IFF_UP) ∧
    Z.testbit (ifr_flags argp) 0 = false ∧
    (∀ n, n ≠ 0 → Z.testbit (ifr_flags argp) n = Z.testbit (ifr_flags got) n) ∧
    ifr_name argp = ifr_name got ∧
    ifr_hwaddr_sa_data argp = ifr_hwaddr_sa_data got.
Proof.
  intros o; subst o. unfold change_mac_address.
  paths os; intros Hd; cbn in Hd; try discriminate Hd.
  all: injection Hd as <-.
  all: eexists; eexists; eexists; split;
       [apply elem_of_cons; right; apply elem_of_cons; left; reflexivity|].
  all: split; [exact I|]; split;
       [unfold succeeded; cbn;
        repeat match goal with H : (_ <? 0) = _ |- _ => rewrite H end;
        exact I|].
  all: split; [reflexivity|]; split; [reflexivity|].
  all: rewrite brought_down_flags.
  all: split; [reflexivity|]; split;
       [rewrite Z.land_spec; simpl; apply andb_false_r|].
  all: split; [|split; reflexivity].
  all: intros n Hn; rewrite Z.land_spec;
       destruct (Z.neg_nonneg_cases n) as [Hneg|Hpos];
       [rewrite !Z.testbit_neg_r by lia; reflexivity|];
       rewrite Z.lnot_spec by lia; unfold IFF_UP;
       rewrite (Z.bits_above_log2 1 n) by (simpl; lia);
       apply andb_true_r.
Qed.

(** X7: the function asks for no change of the flags other than that
    of [IFF_UP]: every flags request it makes comes after the flags were
    read with success, and carries the flags read or the flags read with
    [IFF_UP] cleared, so that every bit other than [IFF_UP] is as it was
    read. *)
Theorem change_mac_address_flags_invariant (e : event) (v : Z) :
  let o :=
    run os (change_mac_address interface_request_init interface_name new_mac)
      w in
  e ∈ trace o → is_ioctl SIOCSIFFLAGS e → ev_flags e = Some v →
  ∃ g got,
    trace o !! 1%nat = Some g ∧ is_ioctl SIOCGIFFLAGS g ∧ succeeded g ∧
    ev_reply g = Some got ∧
    (v = ifr_flags got ∨ v = Z.land (ifr_flags got) (Z.lnot IFF_UP)) ∧
    ∀ n, n ≠ 0 → Z.testbit v n = Z.testbit (ifr_flags got) n.
Proof.
  intros o; subst o. unfold change_mac_address.
  paths os; intros He Hq Hv.
  all: elems He; try absurd_event.
  all: injection Hv as <-.
  all: eexists; eexists; split; [reflexivity|].
  all: split; [exact I|]; split;
       [unfold succeeded; cbn;
        repeat match goal with H : (_ <? 0) = _ |- _ => rewrite H end;
        exact I|].
  all: split; [reflexivity|].
  all: rewrite ?ifr_flags_restored, ?brought_down_flags.
  all: split; [first [left; reflexivity | right; reflexivity]|].
  all: try (intros; reflexivity).
  all: intros n Hn; rewrite Z.land_spec;
       destruct (Z.neg_nonneg_cases n) as [Hneg|Hpos];
       [rewrite !Z.testbit_neg_r by lia; reflexivity|];
       rewrite Z.lnot_spec by lia; unfold IFF_UP;
       rewrite (Z.bits_above_log2 1 n) by (simpl; lia);
       apply andb_true_r.
Qed.

End ChangeMacAddressPaths.

(** ** More of [change_mac_address] on the kernel model *)

(** The answers of [ioctl] that the program does not look at. *)
Ltac unchecked_answers :=
  repeat match goal with
  | r : result (sys_ioctl _ _ _) |- _ =>
      let rc := fresh "rc" in
      let a := fresh "a" in
      destruct r as [rc a]; destruct (rc <? 0) eqn:?
  end.

(** The name the kernel looks up in each request of an execution. *)
Ltac target :=
  try match goal with
  | Hl : strncpy _ _ _ = Some _, Hs : store _ _ _ = Some _ |- _ =>
      rewrite (target_name _ _ _ _ Hl Hs) in *
  end.

Lemma linux_no_faults (c : call) k : no_faults k → no_faults (linux c k).2.
Proof.
  unfold no_faults. intros F. destruct c; simpl; try exact F.
  - unfold next_fault. rewrite F. simpl. exact F.
  - unfold linux_ioctl, next_fault. rewrite F.
    destruct (k_dev k !! _); [|exact F].
    repeat case_match; simpl; exact F.
Qed.

Lemma linux_socket_no_faults domain type protocol k r k' :
  linux (sys_socket domain type protocol) k = (r, k') → no_faults k →
  r = k_next_fd k.
Proof.
  unfold no_faults. cbn [linux]. unfold next_fault. intros H F.
  rewrite F in H. injection H as <- _. reflexivity.
Qed.

(** Why a request fails when the kernel refuses nothing. *)
Lemma linux_ioctl_refused request argp k rc argp' k' :
  linux_ioctl request argp k = (rc, argp', k') → (rc <? 0) = true →
  no_faults k →
  k_dev k !! until_nul (ifr_name argp) = None ∨
  (request ≠ SIOCGIFFLAGS ∧ request ≠ SIOCSIFFLAGS ∧
   ifr_hwaddr_sa_family argp ≠ ARPHRD_ETHER) ∨
  (request ≠ SIOCGIFFLAGS ∧ request ≠ SIOCSIFFLAGS ∧
   request ≠ SIOCSIFHWADDR).
Proof.
  unfold no_faults, linux_ioctl, next_fault. intros H Hrc F. rewrite F in H.
  destruct (k_dev k !! _) as [d|]; [|left; reflexivity]. right.
  destruct (Z.eqb_spec request SIOCGIFFLAGS);
    [injection H as <- _ _; discriminate Hrc|].
  destruct (Z.eqb_spec request SIOCSIFFLAGS);
    [injection H as <- _ _; discriminate Hrc|].
  destruct (Z.eqb_spec request SIOCSIFHWADDR); [|right; auto].
  destruct (Z.eqb_spec (ifr_hwaddr_sa_family argp) ARPHRD_ETHER);
    [injection H as <- _ _; discriminate Hrc|].
  left. auto.
Qed.

(** No state of an execution refuses a call when the first does not. *)
Ltac no_fault_states :=
  repeat match goal with
  | H : linux ?c ?k0 = (_, ?k1), F : no_faults ?k0 |- _ =>
      lazymatch goal with
      | _ : no_faults k1 |- _ => fail
      | _ => idtac
      end;
      let X := fresh "F" in
      pose proof (linux_no_faults c k0 F) as X; rewrite H in X;
      cbn [snd] in X
  end.

Ltac refusals :=
  repeat match goal with
  | H : linux (sys_ioctl _ ?q ?a) ?k0 = (?rc, _, _),
    E : (?rc <? 0) = true, F : no_faults ?k0 |- _ =>
      let R := fresh "R" in
      pose proof (linux_ioctl_refused q a k0 _ _ _ H E F) as R;
      revert E
  end; intros.

Section OnLinuxMore.

Variables (k : kernel) (interface_request_init : ifreq).
Variables (interface_name : string) (new_mac : MacAddress).

(** On a kernel that refuses nothing, no call made for an interface that
    exists fails. *)
Lemma change_mac_address_no_failure :
  no_faults k → 0 ≤ k_next_fd k →
  is_Some (k_dev k !! ifname interface_name) →
  returned (run linux
    (change_mac_address interface_request_init interface_name new_mac) k)
  ≠ Some false.
Proof.
  intros F Hfd [d0 Hdev]. unfold change_mac_address.
  paths linux; intros Hret; try discriminate Hret.
  all: no_fault_states.
  all: try (match goal with
            | H : linux (sys_socket _ _ _) _ = (?r, _), E : (?r <? 0) = true
              |- _ =>
                apply linux_socket_no_faults in H; [|assumption];
                apply Z.ltb_lt in E; lia
            end).
  all: unchecked_answers; refusals.
  all: kernel_steps; subst; fields_all; target; devices.
  all: repeat match goal with
       | R : _ ∨ _ |- _ => destruct R as [R|R]
       | R : _ ∧ _ |- _ => destruct R as [? R]
       end.
  all: try congruence.
  all: simplify_map_eq.
Qed.

(** The state after a true return. *)
Lemma change_mac_address_true_state :
  let o :=
    run linux
      (change_mac_address interface_request_init interface_name new_mac) k in
  returned o = Some true →
  ∃ d, k_dev k !! ifname interface_name = Some d ∧
       k_dev (final o) !! ifname interface_name =
         Some {| dev_flags := sshort (dev_flags d);
                 dev_addr := take 6 (bytes new_mac) |}.
Proof.
  intros o; subst o. unfold change_mac_address.
  paths linux; intros Hret; try discriminate Hret.
  kernel_steps; subst; fields_all; target; devices.
  repeat match goal with H : k_dev _ = _ |- _ => rewrite H end.
  simplify_map_eq. eexists. split; [reflexivity|].
  rewrite ifr_flags_restored.
  unfold ifr_flags. fields. rewrite sshort_ushort.
  match goal with H : memcpy _ _ _ = Some _ |- _ =>
    rewrite (memcpy_take _ _ _ H) end.
  reflexivity.
Qed.

(** With the arrays of the sizes the headers give them, nothing is left
    that could go wrong. *)
Lemma change_mac_address_accepted :
  no_faults k → 0 ≤ k_next_fd k →
  length (ifr_name interface_request_init) = IFNAMSIZ →
  (6 ≤ length (ifr_hwaddr_sa_data interface_request_init))%nat →
  (6 ≤ length (bytes new_mac))%nat →
  is_Some (k_dev k !! ifname interface_name) →
  returned (run linux
    (change_mac_address interface_request_init interface_name new_mac) k)
  = Some true.
Proof.
  intros F Hfd Hname Hdata Hmac Hdev.
  destruct (change_mac_address_returns k interface_request_init
              interface_name new_mac Hname Hdata Hmac) as [[] Hret];
    [exact Hret|].
  destruct (change_mac_address_no_failure F Hfd Hdev Hret).
Qed.

(** X10: on a kernel that refuses nothing, [change_mac_address]
    returns true exactly when the interface exists. *)
Theorem change_mac_address_succeeds_iff :
  no_faults k → 0 ≤ k_next_fd k →
  length (ifr_name interface_request_init) = IFNAMSIZ →
  (6 ≤ length (ifr_hwaddr_sa_data interface_request_init))%nat →
  (6 ≤ length (bytes new_mac))%nat →
  let o :=
    run linux
      (change_mac_address interface_request_init interface_name new_mac) k in
  returned o = Some true ↔ is_Some (k_dev k !! ifname interface_name).
Proof.
  intros F Hfd Hname Hdata Hmac o. split.
  - intros Hret.
    destruct (change_mac_address_true_state Hret) as (d & Hd & _).
    exists d. exact Hd.
  - apply change_mac_address_accepted; assumption.
Qed.

End OnLinuxMore.

(** ** [main] on the kernel model *)




Section MainOnLinux.

Variables (k : kernel) (mac_addr_init : MacAddress).
Variables (interface_request_init : ifreq) (argv : list string).


End MainOnLinux.

(** ** More of [generate_mac_address] and of [main] *)

Section MoreOfMain.

Context {W : Type} (os : ∀ c : call, W → result c * W).

(** Identify the answers to one and the same call. *)
Ltac same_answers :=
  repeat match goal with
  | H : (_, _) = (_, _) |- _ => injection H as ? ?; subst
  end.

(** X12: the local [mac_addr] of [generate_mac_address] is not
    initialised, and its initial contents do not matter: all six bytes
    are written before the value is returned, so the execution is the
    same for any two initial contents. *)
Theorem generate_mac_address_overwrites (init1 init2 : MacAddress) (w : W) :
  length (bytes init1) = 6%nat → length (bytes init2) = 6%nat →
  run os (generate_mac_address init1) w =
  run os (generate_mac_address init2) w.
Proof.
  intros H1 H2. destruct init1 as [l1], init2 as [l2]. simpl in H1, H2.
  do 7 (destruct l1 as [|? l1]; try discriminate H1).
  do 7 (destruct l2 as [|? l2]; try discriminate H2).
  clear H1 H2. unfold generate_mac_address.
  cbn [generate_mac_address_loop bytes].
  repeat (step os; same_answers;
          cbn [store length Nat.ltb Nat.leb list_insert insert load lookup
               list_lookup bind defined]).
  reflexivity.
Qed.

(** [change_mac_address] writes nothing to [stdout] and does not seed
    the generator. *)
Lemma change_mac_address_quiet init name mac w :
  Forall (λ e, ev_stdout e = None ∧ ev_srand e = None)
    (trace (run os (change_mac_address init name mac) w)).
Proof.
  unfold change_mac_address.
  paths os; repeat (constructor; [split; reflexivity|]); constructor.
Qed.

Lemma generate_mac_address_quiet init w :
  Forall (λ e, ev_stdout e = None ∧ ev_srand e = None)
    (trace (run os (generate_mac_address init) w)).
Proof.
  unfold generate_mac_address. cbn [generate_mac_address_loop].
  paths os; repeat (constructor; [split; reflexivity|]); constructor.
Qed.

Variables (mac_addr_init : MacAddress) (interface_request_init : ifreq).

(** X13: with at least one argument, [main] looks at [argv[1]] only:
    the name of the program and further arguments change nothing in
    what it does. *)
Theorem main_other_arguments (argv argv' : list string) (argv_1 : string)
    (w : W) :
  argv !! 1%nat = Some argv_1 → argv' !! 1%nat = Some argv_1 →
  run os (main mac_addr_init interface_request_init argv) w =
  run os (main mac_addr_init interface_request_init argv') w.
Proof.
  intros H H'. rewrite (run_main os _ _ _ _ _ H), (run_main os _ _ _ _ _ H').
  reflexivity.
Qed.

(** X14: with an argument, [main] begins with [getpid] and [srand] on
    the process id, converted to [unsigned int], before any random byte
    is drawn, and seeds the generator only this once. *)
Theorem main_seeds_once (argv : list string) (w : W) :
  (2 ≤ length argv)%nat →
  let o := run os (main mac_addr_init interface_request_init argv) w in
  ∃ pid u rest,
    trace o =
      existT sys_getpid pid :: existT (lib_srand (uint pid)) u :: rest ∧
    omap ev_srand rest = [].
Proof.
  intros Hargc o.
  destruct (lookup_lt_is_Some_2 argv 1 ltac:(lia)) as [argv_1 Hargv].
  subst o. rewrite (run_main os _ _ _ _ _ Hargv), trace_and_then.
  destruct (run_prelude os w) as (H0 & _).
  rewrite H0. clear H0.
  assert (∃ pid u,
    trace (run os (bind getpid srand) w) =
      [existT sys_getpid pid; existT (lib_srand (uint pid)) u]
    ∧ True) as (pid & u & -> & _).
  { paths os. do 2 eexists. split; reflexivity. }
  set (w1 := final _).
  exists pid, u. eexists. split; [reflexivity|].
  rewrite trace_and_then, omap_app.
  assert (∀ tr, Forall (λ e, ev_stdout e = None ∧ ev_srand e = None) tr →
                omap ev_srand tr = []) as Hq.
  { induction 1 as [|e tr [_ He] _ IH]; [reflexivity|].
    simpl. rewrite He. exact IH. }
  rewrite (Hq _ (generate_mac_address_quiet _ _)), app_nil_l.
  destruct (returned _) as [new_mac|]; [|reflexivity].
  rewrite trace_and_then, omap_app.
  rewrite (Hq _ (change_mac_address_quiet _ _ _ _)), app_nil_l.
  destruct (returned _) as [ok|]; [|reflexivity].
  destruct (run_report os ok new_mac
              (final (run os (change_mac_address interface_request_init
                                argv_1 new_mac)
                        (final (run os (generate_mac_address mac_addr_init)
                                  w1))))) as [_ ->].
  destruct ok; reflexivity.
Qed.

(** X15: [main] writes to [stdout] only when the address was changed:
    whatever is written there is the line with the new address, it is
    the last thing the program does, and the exit status is
    [EXIT_SUCCESS]. *)
Theorem main_stdout_on_success (argv : list string) (w : W) (e : event)
    (text : string) :
  let o := run os (main mac_addr_init interface_request_init argv) w in
  e ∈ trace o → ev_stdout e = Some text →
  returned o = Some EXIT_SUCCESS ∧ last (trace o) = Some e ∧
  ∃ new_mac, text = report_new_mac new_mac.
Proof.
  intros o He Ht. subst o.
  destruct (argv !! 1%nat) as [argv_1|] eqn:Hargv.
  - revert He. rewrite (run_main os _ _ _ _ _ Hargv).
    rewrite returned_and_then, trace_and_then.
    destruct (run_prelude os w) as (H0 & _ & _ & Hi0).
    rewrite H0.
    assert (Forall (λ e, ev_stdout e = None)
              (trace (run os (bind getpid srand) w))) as Hq0.
    { clear. paths os. repeat constructor. }
    set (o0 := run os (bind getpid srand) w) in *.
    rewrite returned_and_then, trace_and_then.
    set (og := run os (generate_mac_address mac_addr_init) (final o0)).
    pose proof (generate_mac_address_quiet mac_addr_init (final o0)) as Hqg.
    fold og in Hqg.
    intros He. apply elem_of_app in He as [He|He].
    { rewrite Forall_forall in Hq0. rewrite (Hq0 e He) in Ht.
      discriminate Ht. }
    apply elem_of_app in He as [He|He].
    { rewrite Forall_forall in Hqg. destruct (Hqg e He) as [Hn _].
      rewrite Hn in Ht. discriminate Ht. }
    destruct (returned og) as [new_mac|];
      [|apply elem_of_nil in He; destruct He].
    revert He. rewrite returned_and_then, trace_and_then.
    set (oc := run os (change_mac_address interface_request_init argv_1
                         new_mac) (final og)).
    pose proof (change_mac_address_quiet interface_request_init argv_1
                  new_mac (final og)) as Hqc.
    fold oc in Hqc.
    intros He. apply elem_of_app in He as [He|He].
    { rewrite Forall_forall in Hqc. destruct (Hqc e He) as [Hn _].
      rewrite Hn in Ht. discriminate Ht. }
    destruct (returned oc) as [ok|];
      [|apply elem_of_nil in He; destruct He].
    destruct (run_report os ok new_mac (final oc)) as [Hr Htr].
    rewrite Htr in He. rewrite Hr, Htr.
    apply list_elem_of_singleton in He. subst e.
    destruct ok; [|discriminate Ht].
    injection Ht as <-.
    split; [reflexivity|]. split; [|exists new_mac; reflexivity].
    rewrite !app_assoc. apply last_snoc.
  - revert He. unfold main.
    pose proof (lookup_ge_None_1 _ _ Hargv) as Hlen.
    destruct (Z.ltb_spec (Z.of_nat (length argv)) 2) as [_|Hge]; [|lia].
    paths os. intros He. elems He. discriminate Ht.
Qed.

End MoreOfMain.

(** ** More executions on the sample state *)

Lemma change_mac_address_stops_at_failure_witness :
  let o :=
    run linux (change_mac_address stack_ifreq "eth0" sample_mac)
      (host [false; true]) in
  ∃ e, trace o !! 1%nat = Some e ∧ is_ioctl SIOCGIFFLAGS e ∧ failed e ∧
       returned o = Some false ∧ controls (drop 2 (trace o)) = [].
Proof.
  intros o. eexists. split; [reflexivity|].
  split; [exact I|]. split; [exact I|].
  apply (change_mac_address_stops_at_failure linux stack_ifreq "eth0"
           sample_mac (host [false; true]) 1 _ eq_refl I I).
  intros [].
Defined.

Lemma change_mac_address_diagnostics_witness :
  let o :=
    run linux (change_mac_address stack_ifreq "eth0" sample_mac)
      (host [false; false; true]) in
  returned o = Some false ∧
  ∃ m, perror_messages (trace o) = [m] ∧ m ∈ diagnostics.
Proof.
  intros o. split; [reflexivity|].
  apply (proj1 (proj2 (change_mac_address_diagnostics linux stack_ifreq
                         "eth0" sample_mac (host [false; false; true])))).
  reflexivity.
Defined.

Lemma change_mac_address_hwaddr_request_witness :
  let o :=
    run linux (change_mac_address stack_ifreq "eth0" sample_mac) (host []) in
  ∃ e argp,
    e ∈ trace o ∧ ev_ioctl e = Some (SIOCSIFHWADDR, argp) ∧
    ifr_hwaddr_sa_family argp = ARPHRD_ETHER ∧
    take 6 (ifr_hwaddr_sa_data argp) = take 6 (bytes sample_mac).
Proof.
  intros o.
  assert (∃ e argp,
            e ∈ trace o ∧ ev_ioctl e = Some (SIOCSIFHWADDR, argp))
    as (e & argp & Hin & Hq).
  { eexists. eexists.
    split; [apply (list_elem_of_lookup_2 _ 3%nat); reflexivity|reflexivity]. }
  exists e, argp. split; [exact Hin|]. split; [exact Hq|].
  destruct (change_mac_address_hwaddr_request linux stack_ifreq "eth0"
              sample_mac (host []) e argp Hin Hq) as (Hf & Ht & _).
  split; [exact Hf|exact Ht].
Defined.

Lemma change_mac_address_bring_down_request_witness :
  let o :=
    run linux (change_mac_address stack_ifreq "eth0" sample_mac) (host []) in
  ∃ d argp,
    List.filter (is_ioctl SIOCSIFFLAGS) (trace o) !! 0%nat = Some d ∧
    ev_ioctl d = Some (SIOCSIFFLAGS, argp) ∧
    Z.testbit (ifr_flags argp) 0 = false.
Proof.
  intros o.
  assert (∃ d, List.filter (is_ioctl SIOCSIFFLAGS) (trace o) !! 0%nat
               = Some d) as [d Hd] by (eexists; reflexivity).
  destruct (change_mac_address_bring_down_request linux stack_ifreq "eth0"
              sample_mac (host []) d Hd)
    as (g & got & argp & _ & _ & _ & _ & Hq & _ & Hbit & _).
  exists d, argp. split; [exact Hd|]. split; [exact Hq|exact Hbit].
Defined.

Lemma change_mac_address_flags_invariant_witness :
  let o :=
    run linux (change_mac_address stack_ifreq "eth0" sample_mac) (host []) in
  ∃ e v g got,
    e ∈ trace o ∧ is_ioctl SIOCSIFFLAGS e ∧ ev_flags e = Some v ∧
    trace o !! 1%nat = Some g ∧ ev_reply g = Some got ∧
    (v = ifr_flags got ∨ v = Z.land (ifr_flags got) (Z.lnot IFF_UP)).
Proof.
  intros o.
  assert (∃ e v, e ∈ trace o ∧ is_ioctl SIOCSIFFLAGS e ∧ ev_flags e = Some v)
    as (e & v & Hin & Hq & Hv).
  { eexists. eexists.
    split; [apply (list_elem_of_lookup_2 _ 2%nat); reflexivity|].
    split; [exact I|reflexivity]. }
  destruct (change_mac_address_flags_invariant linux stack_ifreq "eth0"
              sample_mac (host []) e v Hin Hq Hv)
    as (g & got & Hg & _ & _ & Hgot & Hor & _).
  exists e, v, g, got. split; [exact Hin|]. split; [exact Hq|].
  split; [exact Hv|]. split; [exact Hg|]. split; [exact Hgot|exact Hor].
Defined.

Lemma change_mac_address_succeeds_iff_witness :
  no_faults (host []) ∧ 0 ≤ k_next_fd (host []) ∧
  length (ifr_name stack_ifreq) = IFNAMSIZ ∧
  (6 ≤ length (ifr_hwaddr_sa_data stack_ifreq))%nat ∧
  (6 ≤ length (bytes sample_mac))%nat ∧
  (returned (run linux (change_mac_address stack_ifreq "eth0" sample_mac)
               (host [])) = Some true
   ↔ is_Some (k_dev (host []) !! ifname "eth0")).
Proof.
  assert (0 ≤ k_next_fd (host [])) as Hfd by (simpl; lia).
  assert (6 ≤ length (ifr_hwaddr_sa_data stack_ifreq))%nat as Hdata
    by (simpl; lia).
  assert (6 ≤ length (bytes sample_mac))%nat as Hmac by (simpl; lia).
  split; [reflexivity|]. split; [exact Hfd|]. split; [reflexivity|].
  split; [exact Hdata|]. split; [exact Hmac|].
  exact (change_mac_address_succeeds_iff (host []) stack_ifreq "eth0"
           sample_mac eq_refl Hfd eq_refl Hdata Hmac).
Defined.


Lemma generate_mac_address_overwrites_witness :
  length (bytes stack_mac) = 6%nat ∧ length (bytes sample_mac) = 6%nat ∧
  run linux (generate_mac_address stack_mac) (host []) =
  run linux (generate_mac_address sample_mac) (host []).
Proof.
  split; [reflexivity|]. split; [reflexivity|].
  exact (generate_mac_address_overwrites linux stack_mac sample_mac (host [])
           eq_refl eq_refl).
Defined.

Lemma main_other_arguments_witness :
  sample_argv !! 1%nat = Some "eth0"%string ∧
  ["./a.out"; "eth0"; "more"]%string !! 1%nat = Some "eth0"%string ∧
  run linux (main stack_mac stack_ifreq sample_argv) (host []) =
  run linux (main stack_mac stack_ifreq ["./a.out"; "eth0"; "more"]%string)
    (host []).
Proof.
  split; [reflexivity|]. split; [reflexivity|].
  exact (main_other_arguments linux stack_mac stack_ifreq sample_argv
           ["./a.out"; "eth0"; "more"]%string "eth0" (host [])
           eq_refl eq_refl).
Defined.

Lemma main_seeds_once_witness :
  let o := run linux (main stack_mac stack_ifreq sample_argv) (host [true]) in
  (2 ≤ length sample_argv)%nat ∧
  ∃ pid u rest,
    trace o =
      existT sys_getpid pid :: existT (lib_srand (uint pid)) u :: rest ∧
    omap ev_srand rest = [].
Proof.
  intros o.
  assert (2 ≤ length sample_argv)%nat as Hargc by (simpl; lia).
  split; [exact Hargc|].
  exact (main_seeds_once linux stack_mac stack_ifreq sample_argv
           (host [true]) Hargc).
Defined.

Lemma main_stdout_on_success_witness :
  let o := run linux (main stack_mac stack_ifreq sample_argv) (host []) in
  ∃ e text,
    e ∈ trace o ∧ ev_stdout e = Some text ∧
    returned o = Some EXIT_SUCCESS ∧ last (trace o) = Some e.
Proof.
  intros o.
  assert (∃ e text, e ∈ trace o ∧ ev_stdout e = Some text)
    as (e & text & Hin & Ht).
  { eexists. eexists.
    split; [apply (list_elem_of_lookup_2 _ 14%nat); reflexivity|reflexivity]. }
  exists e, text. split; [exact Hin|]. split; [exact Ht|].
  destruct (main_stdout_on_success linux stack_mac stack_ifreq sample_argv
              (host []) e text Hin Ht) as (Hret & Hlast & _).
  split; [exact Hret|exact Hlast].
Defined.
